(** * Vendure CLI source-manipulation helpers and the admin-ui date pipe

    A shallow embedding of
    - [packages/cli/src/utilities/ast-utils.ts]: [getTsMorphProject],
      [getPluginClasses], [getVendureConfig], [addImportsToFile],
      [getRelativeImportPath], [createFile], [kebabize],
      [convertPathToRelativeImport];
    - the [LocaleDatePipe] of the admin UI (constructor, [ngOnDestroy],
      [transform], [getOptionsForFormat]).

    JavaScript strings are sequences of code units; they are modelled as
    [list ascii], for the ASCII text of file paths, identifiers and
    module specifiers.  The calls into Node ([node:path], [fs]), ts-morph
    and [Intl] are library calls: [node:path] (POSIX) and the ts-morph
    syntax tree get small executable models named after the library
    functions, with the errors the library throws, the file system is a
    record of its answers, and a call of [Intl.DateTimeFormat] is kept
    as the call with its arguments. *)

From Stdlib Require Import ZArith Ascii String.
From stdpp Require Import base option list gmap strings.

Local Open Scope Z_scope.

(** ** JavaScript strings *)

Abbreviation jsstring := (list ascii).

Coercion list_ascii_of_string : string >-> list.

Abbreviation js := list_ascii_of_string.

Definition char_code (c : ascii) : nat := nat_of_ascii c.

(** The code units of the ASCII range. *)
Definition is_ascii (c : ascii) : bool := (char_code c <? 128)%nat.

(** [String.prototype.toUpperCase] and [toLowerCase], one code unit at a
    time, on the ASCII range, where only the 26 letters have a case.
    From code unit 128 on JavaScript has further letters with a case,
    which these two leave as they are: they are the functions of
    JavaScript on the code units that satisfy [is_ascii]. *)
Definition is_lower_letter (c : ascii) : bool :=
  ((97 <=? char_code c) && (char_code c <=? 122))%nat.

Definition is_upper_letter (c : ascii) : bool :=
  ((65 <=? char_code c) && (char_code c <=? 90))%nat.

Definition is_letter (c : ascii) : bool :=
  is_lower_letter c || is_upper_letter c.

Definition toUpperCase (c : ascii) : ascii :=
  if is_lower_letter c then ascii_of_nat (char_code c - 32) else c.

Definition toLowerCase (c : ascii) : ascii :=
  if is_upper_letter c then ascii_of_nat (char_code c + 32) else c.

(** [s.startsWith(p)], [s.endsWith(p)], [s.includes(p)]. *)
Fixpoint startsWith (s p : jsstring) : bool :=
  match p, s with
  | [], _ => true
  | _ :: _, [] => false
  | c :: p', d :: s' => Ascii.eqb c d && startsWith s' p'
  end.

Definition endsWith (s p : jsstring) : bool :=
  startsWith (rev s) (rev p).

Fixpoint includes (s p : jsstring) : bool :=
  startsWith s p ||
  match s with
  | [] => false
  | _ :: s' => includes s' p
  end.

(** [s.replace(/\\/g, '/')]: every backslash becomes a forward slash. *)
Definition replace_backslashes (s : jsstring) : jsstring :=
  (fun c => if Ascii.eqb c "\" then "/"%char else c) <$> s.

(** [s.replace(/_/g, '-')]. *)
Definition replace_underscores (s : jsstring) : jsstring :=
  (fun c => if Ascii.eqb c "_" then "-"%char else c) <$> s.

(** [s.replace(/\/\//g, '/')]: one left-to-right pass; each match of two
    slashes is replaced by one, and scanning resumes after the match. *)
Fixpoint replace_double_slashes (s : jsstring) : jsstring :=
  match s with
  | [] => []
  | c :: rest =>
      match rest with
      | d :: rest' =>
          if Ascii.eqb c "/" && Ascii.eqb d "/"
          then "/"%char :: replace_double_slashes rest'
          else c :: replace_double_slashes rest
      | [] => [c]
      end
  end.

(** [s.split(sep)] for a one-character separator and [l.join(sep)]. *)
Fixpoint split_on (sep : ascii) (s : jsstring) : list jsstring :=
  match s with
  | [] => [[]]
  | c :: rest =>
      if Ascii.eqb c sep then [] :: split_on sep rest
      else match split_on sep rest with
           | [] => [[c]]
           | seg :: segs => (c :: seg) :: segs
           end
  end.

Fixpoint join_with (sep : jsstring) (l : list jsstring) : jsstring :=
  match l with
  | [] => []
  | [x] => x
  | x :: rest => x ++ sep ++ join_with sep rest
  end.

(** Occurrence of two adjacent forward slashes. *)
Fixpoint has_double_slash (s : jsstring) : bool :=
  match s with
  | c :: rest =>
      match rest with
      | d :: _ => (Ascii.eqb c "/" && Ascii.eqb d "/") || has_double_slash rest
      | [] => false
      end
  | [] => false
  end.

(** ** Node's [path] module, POSIX flavour *)

Module NodePath.

Record ParsedPath := mkParsedPath {
  root : jsstring;
  dir : jsstring;
  base : jsstring;
  ext : jsstring;
  name : jsstring
}.

Definition charAt (path : jsstring) (i : nat) : ascii :=
  default "000"%char (path !! i).

(** [path.slice(a, b)] for non-negative indices. *)
Definition slice (path : jsstring) (a b : Z) : jsstring :=
  take (Z.to_nat (b - a)) (drop (Z.to_nat a) path).

(** The variables of the backward scan of [posix.parse]. *)
Record ScanState := mkScan {
  startDot : Z;
  startPart : Z;
  end_ : Z;
  matchedSlash : bool;
  preDotState : Z
}.

Definition scan_init : ScanState := mkScan (-1) 0 (-1) true 0.

(** [for (; i >= start; --i) { ... }] with [k = i + 1]; the [break]
    returns the state at once. *)
Fixpoint scan (path : jsstring) (start : nat) (k : nat) (st : ScanState)
  : ScanState :=
  match k with
  | O => st
  | S i =>
      if (i <? start)%nat then st
      else
        let code := charAt path i in
        if Ascii.eqb code "/" then
          if negb (matchedSlash st)
          then mkScan (startDot st) (Z.of_nat i + 1) (end_ st)
                      (matchedSlash st) (preDotState st)
          else scan path start i st
        else
          let st1 :=
            if end_ st =? -1
            then mkScan (startDot st) (startPart st) (Z.of_nat i + 1)
                        false (preDotState st)
            else st in
          let st2 :=
            if Ascii.eqb code "." then
              if startDot st1 =? -1
              then mkScan (Z.of_nat i) (startPart st1) (end_ st1)
                          (matchedSlash st1) (preDotState st1)
              else if negb (preDotState st1 =? 1)
              then mkScan (startDot st1) (startPart st1) (end_ st1)
                          (matchedSlash st1) 1
              else st1
            else if negb (startDot st1 =? -1)
            then mkScan (startDot st1) (startPart st1) (end_ st1)
                        (matchedSlash st1) (-1)
            else st1 in
          scan path start i st2
  end.

(** [path.posix.parse]. *)
Definition parse (path : jsstring) : ParsedPath :=
  if (length path =? 0)%nat then mkParsedPath [] [] [] [] []
  else
    let isAbsolute := Ascii.eqb (charAt path 0) "/" in
    let root := if isAbsolute then ["/"%char] else [] in
    let start := if isAbsolute then 1%nat else 0%nat in
    let st := scan path start (length path) scan_init in
    let parts :=
      if negb (end_ st =? -1) then
        let start' :=
          if (startPart st =? 0) && isAbsolute then 1 else startPart st in
        if (startDot st =? -1)
           || (preDotState st =? 0)
           || ((preDotState st =? 1)
               && (startDot st =? end_ st - 1)
               && (startDot st =? startPart st + 1))
        then (slice path start' (end_ st), [], slice path start' (end_ st))
        else (slice path start' (end_ st),
              slice path (startDot st) (end_ st),
              slice path start' (startDot st))
      else ([], [], []) in
    let dir :=
      if startPart st >? 0 then slice path 0 (startPart st - 1)
      else if isAbsolute then ["/"%char] else [] in
    mkParsedPath root dir (parts.1.1) (parts.1.2) (parts.2).

(** [normalizeString]: resolves [.] and [..] segments and drops empty
    ones; the result is kept as the list of remaining segments. *)
Definition normalize_step (allowAboveRoot : bool)
    (res : list jsstring) (seg : jsstring) : list jsstring :=
  if bool_decide (seg = []) || bool_decide (seg = ["."%char]) then res
  else if bool_decide (seg = ["."%char; "."%char]) then
    match rev res with
    | [] => if allowAboveRoot then res ++ [seg] else res
    | last :: _ =>
        if bool_decide (last = ["."%char; "."%char])
        then (if allowAboveRoot then res ++ [seg] else res)
        else removelast res
    end
  else res ++ [seg].

Definition normalize_segments (allowAboveRoot : bool) (path : jsstring)
  : list jsstring :=
  foldl (normalize_step allowAboveRoot) [] (split_on "/" path).

Definition isAbsolute (path : jsstring) : bool :=
  Ascii.eqb (charAt path 0) "/" && negb (length path =? 0)%nat.

(** [path.posix.normalize]. *)
Definition normalize (path : jsstring) : jsstring :=
  if (length path =? 0)%nat then ["."%char]
  else
    let abs := isAbsolute path in
    let trailingSeparator := Ascii.eqb (charAt path (length path - 1)) "/" in
    let p := join_with ["/"%char] (normalize_segments (negb abs) path) in
    if (length p =? 0)%nat then
      if abs then ["/"%char]
      else if trailingSeparator then ["."%char; "/"%char] else ["."%char]
    else
      let p' := if trailingSeparator then p ++ ["/"%char] else p in
      if abs then "/"%char :: p' else p'.

(** [path.posix.join(a, b)]: empty arguments are skipped. *)
Definition join (a b : jsstring) : jsstring :=
  match a, b with
  | [], [] => ["."%char]
  | [], _ => normalize b
  | _, [] => normalize a
  | _, _ => normalize (a ++ ["/"%char] ++ b)
  end.

(** [path.posix.resolve(p)] against the working directory [cwd], as the
    list of segments below the root. *)
Definition resolve_segments (cwd p : jsstring) : list jsstring :=
  if isAbsolute p then normalize_segments false p
  else normalize_segments false (cwd ++ ["/"%char] ++ p).

Fixpoint drop_common (a b : list jsstring) : list jsstring * list jsstring :=
  match a, b with
  | x :: a', y :: b' =>
      if bool_decide (x = y) then drop_common a' b' else (a, b)
  | _, _ => (a, b)
  end.

(** [path.posix.relative(from, to)]: one [..] for every segment of
    [from] below the common ancestor, then the rest of [to]. *)
Definition relative (cwd from to : jsstring) : jsstring :=
  let '(up, down) :=
    drop_common (resolve_segments cwd from) (resolve_segments cwd to) in
  join_with ["/"%char] (replicate (length up) ["."%char; "."%char] ++ down).

End NodePath.

(** ** [kebabize] *)

(** The callback of [.map((letter, idx) => ...)]. *)
Definition kebabize_letter (idx : nat) (letter : ascii) : jsstring :=
  if Ascii.eqb (toUpperCase letter) letter
  then (if negb (idx =? 0)%nat then ["-"%char] else []) ++ [toLowerCase letter]
  else [letter].

Definition kebabize (str : jsstring) : jsstring :=
  concat (imap kebabize_letter str).

(** The conversion as the specification words it: every character is
    lowercased, and a hyphen goes in front of every uppercase character
    that is not the first one. *)
Definition kebab_spec_letter (idx : nat) (letter : ascii) : jsstring :=
  (if is_upper_letter letter && negb (idx =? 0)%nat then ["-"%char] else [])
  ++ [toLowerCase letter].

Definition kebab_spec (str : jsstring) : jsstring :=
  concat (imap kebab_spec_letter str).

(** ** [convertPathToRelativeImport] and [getRelativeImportPath] *)

Definition convertPathToRelativeImport (filePath : jsstring) : jsstring :=
  let normalizedPath := replace_backslashes filePath in
  let parsedPath := NodePath.parse normalizedPath in
  replace_double_slashes
    (["."%char; "/"%char] ++ NodePath.dir parsedPath ++ ["/"%char]
       ++ NodePath.name parsedPath).

(** [getRelativeImportPath] reads a path off each location: the file path
    of a source file, the path of a directory. *)
Inductive Location :=
  | SourceFileAt (filePath : jsstring)
  | DirectoryAt (path : jsstring).

Definition location_path (l : Location) : jsstring :=
  match l with
  | SourceFileAt filePath => filePath
  | DirectoryAt path => path
  end.

Definition getRelativeImportPath (cwd : jsstring) (from to : Location)
  : jsstring :=
  let fromPath := location_path from in
  let toPath := location_path to in
  convertPathToRelativeImport (NodePath.relative cwd toPath fromPath).

(** ** Results of calls that may throw or leave the process *)

Inductive Outcome (A : Type) :=
  | Returned (a : A)
  | Thrown (message : jsstring)
  | Exited (code : Z).

Arguments Returned {A} a.
Arguments Thrown {A} message.
Arguments Exited {A} code.

(** ** The ts-morph program model

    The part of ts-morph's syntax tree that the helpers read and write.
    Source files and import declarations are objects that the library
    changes in place, and it throws an [InvalidOperationError] on a
    request it rejects: an edit is modelled by the object as it leaves
    it, and the message when it throws ([inr]).  Names are read as
    identifiers and module specifiers as the text of their literal. *)

Module TsMorph.

(** An import declaration as its getters show it: the value of the
    specifier literal, the default and the namespace import when there
    are any, and the names of the named imports. *)
Record ImportDeclaration := mkImportDeclaration {
  moduleSpecifierValue : jsstring;
  defaultImport : option jsstring;
  namespaceImport : option jsstring;
  namedImports : list jsstring
}.

Inductive Node :=
  | ObjectLiteralExpression (text : jsstring)
  | OtherNode (text : jsstring).

Definition isObjectLiteralExpression (n : Node) : bool :=
  match n with
  | ObjectLiteralExpression _ => true
  | OtherNode _ => false
  end.

Record VariableDeclaration := mkVariableDeclaration {
  variableName : jsstring;
  typeText : jsstring;
  children : list Node
}.

(** The children of a file's statement list, as [setOrder] and
    [addImportDeclaration] count them: the statements, and the comments
    that stand on lines of their own, which ts-morph keeps as nodes
    ([multiLine]: a block comment). *)
Inductive Statement :=
  | ImportStatement (d : ImportDeclaration)
  | VariableStatement (declarations : list VariableDeclaration)
  | OtherStatement (text : jsstring)
  | CommentNode (multiLine : bool) (text : jsstring).

Record SourceFile := mkSourceFile {
  filePath : jsstring;
  statements : list Statement
}.

Definition getVariableDeclarations (sf : SourceFile)
  : list VariableDeclaration :=
  flat_map (fun st => match st with
                      | VariableStatement ds => ds
                      | _ => []
                      end) (statements sf).

Definition getImportDeclarations (sf : SourceFile) : list ImportDeclaration :=
  flat_map (fun st => match st with
                      | ImportStatement d => [d]
                      | _ => []
                      end) (statements sf).

(** Position, in the statement list, of the first import declaration
    that satisfies [p]: the handle through which it is updated in place. *)
Fixpoint find_import (p : ImportDeclaration -> bool) (sts : list Statement)
  : option nat :=
  match sts with
  | [] => None
  | ImportStatement d :: rest =>
      if p d then Some 0%nat else S <$> find_import p rest
  | _ :: rest => S <$> find_import p rest
  end.

Definition import_at (sts : list Statement) (i : nat)
  : option ImportDeclaration :=
  match sts !! i with
  | Some (ImportStatement d) => Some d
  | _ => None
  end.

(** [sourceFile.getImportDeclaration(predicate)]. *)
Definition getImportDeclaration (sf : SourceFile)
    (p : ImportDeclaration -> bool) : option ImportDeclaration :=
  find_import p (statements sf) ≫= import_at (statements sf).

Definition update_import (f : ImportDeclaration -> ImportDeclaration)
    (st : Statement) : Statement :=
  match st with
  | ImportStatement d => ImportStatement (f d)
  | _ => st
  end.

(** [declaration.setNamespaceImport(text)]: an existing namespace import
    is renamed; a declaration with named imports cannot get one. *)
Definition setNamespaceImport (text : jsstring) (d : ImportDeclaration)
  : ImportDeclaration + jsstring :=
  match namespaceImport d, namedImports d with
  | None, _ :: _ =>
      inr (js "Cannot add a namespace import to an import declaration that has named imports.")
  | _, _ =>
      inl (mkImportDeclaration (moduleSpecifierValue d) (defaultImport d)
                               (Some text) (namedImports d))
  end.

(** [declaration.addNamedImport(name)]: appended after the others; the
    first named import cannot be added next to a namespace import. *)
Definition addNamedImport (n : jsstring) (d : ImportDeclaration)
  : ImportDeclaration + jsstring :=
  match namedImports d, namespaceImport d with
  | [], Some _ =>
      inr (js "Cannot add a named import to an import declaration that has a namespace import.")
  | _, _ =>
      inl (mkImportDeclaration (moduleSpecifierValue d) (defaultImport d)
                               (namespaceImport d) (namedImports d ++ [n]))
  end.

Definition is_import (st : Statement) : bool :=
  match st with
  | ImportStatement _ => true
  | _ => false
  end.

Definition is_block_comment (st : Statement) : bool :=
  match st with
  | CommentNode multiLine _ => multiLine
  | _ => false
  end.

(** The loop of [getInsertIndex]: a new import declaration goes after
    the last import declaration of the file, and after the block comments
    the file starts with. *)
Fixpoint insert_index_loop (i insertIndex : nat) (wasLastComment : bool)
    (children : list Statement) : nat :=
  match children with
  | [] => insertIndex
  | child :: rest =>
      if wasLastComment && is_block_comment child
      then insert_index_loop (S i) (S i) true rest
      else insert_index_loop (S i)
             (if is_import child then S i else insertIndex) false rest
  end.

Definition import_insert_index (sts : list Statement) : nat :=
  insert_index_loop 0 0 true sts.

(** [sourceFile.addImportDeclaration(structure)]: a structure with named
    imports next to a namespace import is rejected before anything is
    written; otherwise the file and the position of the new declaration
    are returned. *)
Definition addImportDeclaration (sf : SourceFile) (d : ImportDeclaration)
  : SourceFile * nat + jsstring :=
  match namedImports d, namespaceImport d with
  | _ :: _, Some _ =>
      inr (js "An import declaration cannot have both a namespace import and a named import.")
  | _, _ =>
      let i := import_insert_index (statements sf) in
      inl (mkSourceFile (filePath sf)
             (take i (statements sf) ++ ImportStatement d
                :: drop i (statements sf)),
           i)
  end.

(** [node.setOrder(order)]: the child at [i] is moved to position
    [order] of the statement list; an [order] past the last position is
    rejected. *)
Definition setOrder (sf : SourceFile) (i order : nat)
  : SourceFile + jsstring :=
  match statements sf !! i with
  | None => inl sf
  | Some st =>
      if (length (statements sf) <=? order)%nat
      then inr (js "Argument Error (order): out of range.")
      else
        let others := delete i (statements sf) in
        inl (mkSourceFile (filePath sf)
               (take order others ++ st :: drop order others))
  end.

End TsMorph.

Import TsMorph.

(** ** [addImportsToFile] *)

(** [string | SourceFile]. *)
Inductive ModuleSpecifier :=
  | SpecifierString (s : jsstring)
  | SpecifierSourceFile (sf : SourceFile).

Record ImportOptions := mkImportOptions {
  opt_moduleSpecifier : ModuleSpecifier;
  opt_namedImports : option (list jsstring);
  opt_namespaceImport : option jsstring;
  opt_order : option nat
}.

(** [literal === options.moduleSpecifier]: a string is never strictly
    equal to a source-file object. *)
Definition strict_equal_specifier (literal : jsstring) (m : ModuleSpecifier)
  : bool :=
  match m with
  | SpecifierString s => bool_decide (literal = s)
  | SpecifierSourceFile _ => false
  end.

(** Truthiness of an optional string: absent and empty are falsy. *)
Definition truthy_string (o : option jsstring) : bool :=
  match o with
  | Some (_ :: _) => true
  | _ => false
  end.

Definition getModuleSpecifierString (cwd : jsstring)
    (moduleSpecifier : ModuleSpecifier) (sourceFile : SourceFile) : jsstring :=
  match moduleSpecifier with
  | SpecifierString s => s
  | SpecifierSourceFile target =>
      getRelativeImportPath cwd (SourceFileAt (filePath target))
                            (SourceFileAt (filePath sourceFile))
  end.

(** The loop over [options.namedImports]; [existingNamedImports] is read
    once, before the loop.  The loop ends where [addNamedImport] throws,
    and the declaration stays as it is then. *)
Fixpoint add_missing_named_imports (existingNamedImports : list jsstring)
    (requested : list jsstring) (d : ImportDeclaration)
  : ImportDeclaration * Outcome unit :=
  match requested with
  | [] => (d, Returned tt)
  | namedImport :: rest =>
      if bool_decide (namedImport ∈ existingNamedImports)
      then add_missing_named_imports existingNamedImports rest d
      else match addNamedImport namedImport d with
           | inl d' => add_missing_named_imports existingNamedImports rest d'
           | inr message => (d, Thrown message)
           end
  end.

(** What the else-branch does to the declaration it found: the
    declaration as the branch leaves it, and how the branch ends. *)
Definition merge_into_existing (options : ImportOptions)
    (existing : ImportDeclaration) : ImportDeclaration * Outcome unit :=
  let named_imports_step (d1 : ImportDeclaration) :=
    match opt_namedImports options with
    | Some requested =>
        add_missing_named_imports (namedImports d1) requested d1
    | None => (d1, Returned tt)
    end in
  if truthy_string (opt_namespaceImport options)
     && negb (bool_decide (is_Some (namespaceImport existing)))
     && negb (bool_decide (is_Some (defaultImport existing)))
  then
    match setNamespaceImport (default [] (opt_namespaceImport options))
                             existing with
    | inl d1 => named_imports_step d1
    | inr message => (existing, Thrown message)
    end
  else named_imports_step existing.

(** The structure handed to [addImportDeclaration]: the two spreads add
    the namespace import when it is truthy and the named imports when
    they are given. *)
Definition import_structure (moduleSpecifier : jsstring)
    (options : ImportOptions) : ImportDeclaration :=
  mkImportDeclaration moduleSpecifier None
    (if truthy_string (opt_namespaceImport options)
     then opt_namespaceImport options else None)
    (default [] (opt_namedImports options)).

(** [addImportsToFile] returns nothing: a call is the source file as the
    call leaves it, and how the call ends. *)
Definition addImportsToFile (cwd : jsstring) (sourceFile : SourceFile)
    (options : ImportOptions) : SourceFile * Outcome unit :=
  let existingDeclaration :=
    find_import
      (fun declaration =>
         strict_equal_specifier (moduleSpecifierValue declaration)
                                (opt_moduleSpecifier options))
      (statements sourceFile) in
  let moduleSpecifier :=
    getModuleSpecifierString cwd (opt_moduleSpecifier options) sourceFile in
  match existingDeclaration with
  | None =>
      match addImportDeclaration sourceFile
              (import_structure moduleSpecifier options) with
      | inr message => (sourceFile, Thrown message)
      | inl (sf, i) =>
          match opt_order options with
          | Some order =>
              match setOrder sf i order with
              | inl sf' => (sf', Returned tt)
              | inr message => (sf, Thrown message)
              end
          | None => (sf, Returned tt)
          end
      end
  | Some i =>
      (mkSourceFile (filePath sourceFile)
         (alter (update_import (fun d => (merge_into_existing options d).1)) i
                (statements sourceFile)),
       match import_at (statements sourceFile) i with
       | Some existing => (merge_into_existing options existing).2
       | None => Returned tt
       end)
  end.

(** Import declarations of a file whose module specifier is [m]. *)
Definition imports_of (m : jsstring) (sf : SourceFile)
  : list ImportDeclaration :=
  filter (fun d => moduleSpecifierValue d = m) (getImportDeclarations sf).

(** ** The file system *)

(** The file system as the helpers see it.  [readFileSync] and
    [readdirSync] throw where they give [None]; [parsedAt] is the syntax
    tree ts-morph builds from the file at a path ([None]: the path cannot
    be added as a source file). *)
Record FileSystem := mkFileSystem {
  existsSync : jsstring -> bool;
  readFileSync : jsstring -> option jsstring;
  readdirSync : jsstring -> option (list jsstring);
  parsedAt : jsstring -> option (list Statement)
}.

(** ** [getVendureConfig] *)

(** A project: its source files in the order [getSourceFiles()] lists
    them, and its directories.  That order is the project's own, by
    directory and file name, and is not the order in which the files
    were added: [listedBefore a b] tells whether the file at path [a] is
    listed before the file at path [b]. *)
Record Project := mkProject {
  sourceFiles : list SourceFile;
  directories : list jsstring;
  listedBefore : jsstring -> jsstring -> bool
}.

(** A file takes its place in the listing: before the first file that
    is listed after it. *)
Fixpoint insert_listed (before : jsstring -> jsstring -> bool)
    (sf : SourceFile) (files : list SourceFile) : list SourceFile :=
  match files with
  | [] => [sf]
  | f :: rest =>
      if before (filePath sf) (filePath f) then sf :: files
      else f :: insert_listed before sf rest
  end.

(** [project.getDirectory(name)]: the directory of the project at [name],
    resolved against the working directory. *)
Definition getDirectory (cwd : jsstring) (project : Project) (name : jsstring)
  : option jsstring :=
  let target := "/"%char :: join_with ["/"%char] (NodePath.resolve_segments cwd name) in
  List.find (fun d => bool_decide (d = target)) (directories project).

(** [project.addSourceFileAtPath(path)]: a file already in the project is
    not added twice. *)
Definition addSourceFileAtPath (fs : FileSystem) (project : Project)
    (path : jsstring) : Outcome Project :=
  match List.find (fun sf => bool_decide (filePath sf = path)) (sourceFiles project) with
  | Some _ => Returned project
  | None =>
      match parsedAt fs path with
      | Some sts =>
          Returned (mkProject
                      (insert_listed (listedBefore project)
                                     (mkSourceFile path sts)
                                     (sourceFiles project))
                      (directories project) (listedBefore project))
      | None => Thrown "File not found"
      end
  end.

Definition isVendureConfigVariableDeclaration (v : VariableDeclaration) : bool :=
  bool_decide (typeText v = js "VendureConfig").

Definition is_some {A} (o : option A) : bool :=
  match o with
  | Some _ => true
  | None => false
  end.

(** The predicate handed to [sourceFiles.find]. *)
Definition isVendureConfigSourceFile (checkFileName : bool) (sf : SourceFile)
  : bool :=
  (if checkFileName then endsWith (filePath sf) "vendure-config.ts" else true)
  && is_some (List.find isVendureConfigVariableDeclaration
                        (getVariableDeclarations sf)).

Definition getVendureConfigSourceFile (checkFileName : bool)
    (sourceFiles : list SourceFile) : option SourceFile :=
  List.find (isVendureConfigSourceFile checkFileName) sourceFiles.

Definition findAndAddVendureConfigToProject (cwd : jsstring) (fs : FileSystem)
    (project : Project) : Outcome Project :=
  match getDirectory cwd project "src" with
  | Some srcDirPath =>
      match readdirSync fs srcDirPath with
      | None => Thrown "ENOENT"
      | Some srcFiles =>
          match List.find (fun file => includes file "vendure-config.ts") srcFiles with
          | Some filePath =>
              addSourceFileAtPath fs project (NodePath.join srcDirPath filePath)
          | None => Returned project
          end
      end
  | None => Returned project
  end.

(** The optional chain of the [return]: first matching declaration of the
    file, then its first object-literal child. *)
Definition config_initializer (vendureConfigFile : option SourceFile)
  : option Node :=
  sf ← vendureConfigFile;
  v ← List.find isVendureConfigVariableDeclaration (getVariableDeclarations sf);
  List.find isObjectLiteralExpression (children v).

(** [options.checkFileName ?? true] is passed as [option bool].  The
    result carries the project as the call leaves it. *)
Definition getVendureConfig (cwd : jsstring) (fs : FileSystem)
    (project : Project) (checkFileNameOption : option bool)
  : Outcome (Project * option Node) :=
  let checkFileName := default true checkFileNameOption in
  match getVendureConfigSourceFile checkFileName (sourceFiles project) with
  | Some sf => Returned (project, config_initializer (Some sf))
  | None =>
      match findAndAddVendureConfigToProject cwd fs project with
      | Returned project' =>
          Returned (project',
                    config_initializer
                      (getVendureConfigSourceFile checkFileName
                                                  (sourceFiles project')))
      | Thrown m => Thrown m
      | Exited c => Exited c
      end
  end.

(** ** [getTsMorphProject] and [createFile] *)

(** What a call does to the outside, in order. *)
Inductive Event :=
  | EvExistsSync (path : jsstring)
  | EvReadFileSync (path : jsstring)
  | EvLogError (message : jsstring)
  | EvProcessExit (code : Z)
  | EvNewProject (tsConfigFilePath : option jsstring)
  | EvCreateSourceFile (path : jsstring).

Definition is_read_or_construct (e : Event) : bool :=
  match e with
  | EvReadFileSync _ | EvNewProject _ | EvCreateSourceFile _ => true
  | _ => false
  end.

(** A key of an options object: not there, or there with its value,
    which may be [undefined]. *)
Inductive Key (A : Type) :=
  | Absent
  | Given (value : option A).

Arguments Absent {A}.
Arguments Given {A} value.

(** Reading the property: an absent key reads as [undefined]. *)
Definition key_value {A} (k : Key A) : option A :=
  match k with
  | Absent => None
  | Given value => value
  end.

(** One key of a spread: a key of the later object, whatever its value,
    replaces the key of the earlier one. *)
Definition or_else {A} (later earlier : Key A) : Key A :=
  match later with
  | Given value => Given value
  | Absent => earlier
  end.

Section ProjectLoader.

(** The value of [defaultManipulationSettings] is declared in
    [../constants], outside these sources. *)
Variable ManipulationSettings : Type.
Variable defaultManipulationSettings : ManipulationSettings.

Record CompilerOptions := mkCompilerOptions {
  skipLibCheck : option bool
}.

(** The keys of ts-morph's [ProjectOptions] that the loader sets, and
    one it does not. *)
Record ProjectOptions := mkProjectOptions {
  tsConfigFilePath : Key jsstring;
  manipulationSettings : Key ManipulationSettings;
  compilerOptions : Key CompilerOptions;
  skipAddingFilesFromTsConfig : Key bool
}.

Definition emptyProjectOptions : ProjectOptions :=
  mkProjectOptions Absent Absent Absent Absent.

(** [{ ...defaults, ...options }]: a key of [options] replaces the
    loader's value for that key. *)
Definition spread (defaults options : ProjectOptions) : ProjectOptions :=
  mkProjectOptions
    (or_else (tsConfigFilePath options) (tsConfigFilePath defaults))
    (or_else (manipulationSettings options) (manipulationSettings defaults))
    (or_else (compilerOptions options) (compilerOptions defaults))
    (or_else (skipAddingFilesFromTsConfig options)
             (skipAddingFilesFromTsConfig defaults)).

Definition getTsMorphProject (cwd : jsstring) (fs : FileSystem)
    (options : ProjectOptions) : Outcome ProjectOptions * list Event :=
  let tsConfigPath := NodePath.join cwd "tsconfig.json" in
  if negb (existsSync fs tsConfigPath) then
    (Thrown "No tsconfig.json found in current directory",
     [EvExistsSync tsConfigPath])
  else
    let projectOptions :=
      spread
        (mkProjectOptions (Given (Some tsConfigPath))
                          (Given (Some defaultManipulationSettings))
                          (Given (Some (mkCompilerOptions (Some true))))
                          Absent)
        options in
    (Returned projectOptions,
     [EvExistsSync tsConfigPath;
      EvNewProject (key_value (tsConfigFilePath projectOptions))]).

End ProjectLoader.

(** [createFile] reads and writes the path and the full text of source
    files only: the project is its table of source texts, keyed by path. *)
Record VirtualFile := mkVirtualFile {
  virtualPath : jsstring;
  fullText : jsstring
}.

(** [project.createSourceFile(path, text, { overwrite })]: an existing
    file is replaced when [overwrite] is set and is an error otherwise. *)
Definition createSourceFile (project : gmap jsstring jsstring)
    (path text : jsstring) (overwrite : bool)
  : gmap jsstring jsstring * VirtualFile + jsstring :=
  match project !! path with
  | Some _ =>
      if overwrite then inl (<[path := text]> project, mkVirtualFile path text)
      else inr (js "A source file already exists at the provided file path: " ++ path)
  | None => inl (<[path := text]> project, mkVirtualFile path text)
  end.

Definition tempPrefix : jsstring := "/.vendure-cli-temp/".

Definition createFile (fs : FileSystem) (project : gmap jsstring jsstring)
    (templatePath : jsstring)
  : Outcome (gmap jsstring jsstring * VirtualFile) * list Event :=
  match readFileSync fs templatePath with
  | None => (Thrown "ENOENT", [EvReadFileSync templatePath])
  | Some template =>
      let target := NodePath.join tempPrefix templatePath in
      match createSourceFile project target template true with
      | inl r =>
          (Returned r, [EvReadFileSync templatePath; EvCreateSourceFile target])
      | inr message =>
          (Exited 1,
           [EvReadFileSync templatePath; EvCreateSourceFile target;
            EvLogError message; EvProcessExit 1])
      end
  end.

(** ** [LocaleDatePipe] *)

Module LocaleDatePipe.

(** A [Date]: built from a time value or by [new Date(text)]. *)
Inductive JsDate :=
  | DateOfTime (ms : Z)
  | DateOfString (text : jsstring).

(** The values [transform] may be handed ([unknown]). *)
Inductive JsValue :=
  | JsUndefined
  | JsNull
  | JsBoolean (b : bool)
  | JsNumber (n : Z)
  | JsString (s : jsstring)
  | JsDateObject (d : JsDate)
  | JsOtherObject.

Record DateTimeFormatOptions := mkDateTimeFormatOptions {
  month : option jsstring;
  year : option jsstring;
  day : option jsstring;
  hour : option jsstring;
  minute : option jsstring;
  second : option jsstring;
  hour12 : option bool
}.

(** The pipe's state: the private [locale] field, unset until the
    subscription delivers a language code. *)
Record Pipe := mkPipe {
  subscribed : bool;
  locale : option jsstring
}.

(** The constructor subscribes only when both collaborators are given. *)
Definition construct (dataService changeDetectorRef : bool) : Pipe :=
  mkPipe (dataService && changeDetectorRef) None.

(** The subscription callback. *)
Definition onLanguage (p : Pipe) (languageCode : jsstring) : Pipe :=
  if subscribed p
  then mkPipe true (Some (replace_underscores languageCode))
  else p.

(** What [transform] returns: [undefined], or the string that
    [new Intl.DateTimeFormat(locale, options).format(date)] yields. *)
Inductive Result :=
  | Undefined
  | IntlFormatted (activeLocale : jsstring)
                  (options : option DateTimeFormatOptions) (date : JsDate).

Definition getOptionsForFormat (dateFormat : jsstring)
  : option DateTimeFormatOptions :=
  if bool_decide (dateFormat = js "medium") then
    Some (mkDateTimeFormatOptions (Some (js "short")) (Some (js "numeric"))
            (Some (js "numeric")) (Some (js "numeric")) (Some (js "numeric"))
            (Some (js "numeric")) (Some true))
  else if bool_decide (dateFormat = js "mediumTime") then
    Some (mkDateTimeFormatOptions None None None (Some (js "numeric"))
            (Some (js "numeric")) (Some (js "numeric")) (Some true))
  else if bool_decide (dateFormat = js "longDate") then
    Some (mkDateTimeFormatOptions (Some (js "long")) (Some (js "numeric"))
            (Some (js "numeric")) None None None None)
  else if bool_decide (dateFormat = js "short") then
    Some (mkDateTimeFormatOptions (Some (js "numeric")) (Some (js "2-digit"))
            (Some (js "numeric")) (Some (js "numeric")) (Some (js "numeric")) None
            (Some true))
  else None.

Definition is_string (v : JsValue) : bool :=
  match v with
  | JsString _ => true
  | _ => false
  end.

Definition is_date (v : JsValue) : bool :=
  match v with
  | JsDateObject _ => true
  | _ => false
  end.

(** [const [format, locale] = args]. *)
Definition arg (args : list JsValue) (i : nat) : JsValue :=
  default JsUndefined (args !! i).

Definition transform (this : Pipe) (value : JsValue) (args : list JsValue)
  : Result :=
  let format := arg args 0 in
  let locale_arg := arg args 1 in
  if truthy_string (locale this) || is_string locale_arg then
    let activeLocale :=
      match locale_arg with
      | JsString l => l
      | _ => default [] (locale this)
      end in
    let date :=
      match value with
      | JsDateObject d => Some d
      | JsString s => Some (DateOfString s)
      | _ => None
      end in
    match date with
    | Some d =>
        let options :=
          getOptionsForFormat
            (match format with
             | JsString f => f
             | _ => js "medium"
             end) in
        IntlFormatted activeLocale options d
    | None => Undefined
    end
  else Undefined.

End LocaleDatePipe.

(** ** [getPluginClasses] *)

(** What [getModifiers()] lists on a class: decorators, which have a
    name, and modifier keywords. *)
Inductive Modifier :=
  | DecoratorModifier (name : jsstring)
  | KeywordModifier (text : jsstring).

Record ClassDeclaration := mkClassDeclaration {
  className : jsstring;
  classModifiers : list Modifier
}.

(** [Node.isDecorator(m) && m.getName() === 'VendurePlugin']. *)
Definition isVendurePluginDecorator (m : Modifier) : bool :=
  match m with
  | DecoratorModifier name => bool_decide (name = js "VendurePlugin")
  | KeywordModifier _ => false
  end.

(** The predicate handed to [.filter]. *)
Definition hasPluginDecorator (c : ClassDeclaration) : bool :=
  is_some (List.find isVendurePluginDecorator (classModifiers c)).

(** [getPluginClasses] reads the classes of each source file only: the
    project is given as the list, in [getSourceFiles()] order, of what
    [getClasses()] returns for each file. *)
Definition getPluginClasses (classesOfSourceFiles : list (list ClassDeclaration))
  : list ClassDeclaration :=
  List.filter hasPluginDecorator
    (flat_map (fun classes => classes) classesOfSourceFiles).

(** ** [LocaleDatePipe.ngOnDestroy] *)

(** The subscription, when there is one, is ended. *)
Definition ngOnDestroy (p : LocaleDatePipe.Pipe) : LocaleDatePipe.Pipe :=
  if LocaleDatePipe.subscribed p
  then LocaleDatePipe.mkPipe false (LocaleDatePipe.locale p)
  else p.

(** ** Notions the statements below are written with *)

(** No separator at the positions [a <= j < b] of a path. *)
Definition not_slash_between (path : jsstring) (a b : Z) : Prop :=
  ∀ j : nat, a ≤ Z.of_nat j < b → NodePath.charAt path j ≠ "/"%char.

(** What holds before the iteration of [NodePath.scan] at index [k - 1]. *)
Record scan_inv (path : jsstring) (k : nat) (st : NodePath.ScanState)
  : Prop := {
  inv_startPart : NodePath.startPart st = 0;
  inv_matched : NodePath.matchedSlash st = true ↔ NodePath.end_ st = -1;
  inv_end : NodePath.end_ st ≠ -1 →
            Z.of_nat k < NodePath.end_ st ≤ Z.of_nat (length path)
            ∧ not_slash_between path (Z.of_nat k) (NodePath.end_ st);
  inv_dot : NodePath.startDot st = -1
            ∨ Z.of_nat k ≤ NodePath.startDot st < NodePath.end_ st
}.

(** What holds of the state [NodePath.scan] returns. *)
Record scan_post (path : jsstring) (start : nat) (st : NodePath.ScanState)
  : Prop := {
  post_startPart : 0 ≤ NodePath.startPart st ≤ Z.of_nat (length path);
  post_break : 0 < NodePath.startPart st →
               NodePath.charAt path (Z.to_nat (NodePath.startPart st - 1))
               = "/"%char
               ∧ Z.of_nat start < NodePath.startPart st;
  post_end : NodePath.end_ st ≠ -1 →
             Z.max (Z.of_nat start) (NodePath.startPart st)
             < NodePath.end_ st ≤ Z.of_nat (length path)
             ∧ not_slash_between path
                 (Z.max (Z.of_nat start) (NodePath.startPart st))
                 (NodePath.end_ st);
  post_dot : NodePath.startDot st = -1
             ∨ Z.max (Z.of_nat start) (NodePath.startPart st)
               ≤ NodePath.startDot st < NodePath.end_ st
}.

(** A segment of a resolved path: not empty, and free of both kinds of
    separator. *)
Definition plain_segment (seg : jsstring) : Prop :=
  seg ≠ [] ∧ ("/"%char ∉ seg) ∧ ("\"%char ∉ seg).

(** The search [addImportsToFile] runs for a string specifier [m]. *)
Definition has_specifier (m : jsstring) (d : ImportDeclaration) : bool :=
  strict_equal_specifier (moduleSpecifierValue d) (SpecifierString m).

(** A file the configuration locator accepts, in the words of its
    contract. *)
Definition is_candidate (checkFileName : bool) (sf : SourceFile) : Prop :=
  (checkFileName = true → endsWith (filePath sf) "vendure-config.ts" = true)
  ∧ ∃ v, v ∈ getVariableDeclarations sf ∧ typeText v = js "VendureConfig".

(** The locale a call of the pipe can use: a string override, else the
    stored one when it is set and not empty. *)
Definition available_locale (this : LocaleDatePipe.Pipe)
    (override : LocaleDatePipe.JsValue) : option jsstring :=
  match override with
  | LocaleDatePipe.JsString l => Some l
  | _ => if truthy_string (LocaleDatePipe.locale this)
         then LocaleDatePipe.locale this else None
  end.

(** The date a value stands for. *)
Definition date_of (value : LocaleDatePipe.JsValue)
  : option LocaleDatePipe.JsDate :=
  match value with
  | LocaleDatePipe.JsDateObject d => Some d
  | LocaleDatePipe.JsString s => Some (LocaleDatePipe.DateOfString s)
  | _ => None
  end.

(** The format name a call asks for; anything but a string means
    [medium]. *)
Definition format_name (format : LocaleDatePipe.JsValue) : jsstring :=
  match format with
  | LocaleDatePipe.JsString f => f
  | _ => js "medium"
  end.

Definition known_formats : list jsstring :=
  [js "medium"; js "mediumTime"; js "longDate"; js "short"].

(** A declaration with other named imports, and with a namespace
    import. *)
Definition with_named_imports (names : list jsstring) (d : ImportDeclaration)
  : ImportDeclaration :=
  mkImportDeclaration (moduleSpecifierValue d) (defaultImport d)
                      (namespaceImport d) names.

Definition with_namespace_import (text : jsstring) (d : ImportDeclaration)
  : ImportDeclaration :=
  mkImportDeclaration (moduleSpecifierValue d) (defaultImport d)
                      (Some text) (namedImports d).

(** A file name: not empty, no separator, and neither [.] nor [..]. *)
Definition file_name (a : jsstring) : Prop :=
  a ≠ [] ∧ ("/"%char ∉ a) ∧ a ≠ ["."%char] ∧ a ≠ ["."%char; "."%char].

(** A string of ASCII characters. *)
Definition ascii_only (s : jsstring) : Prop := forallb is_ascii s = true.

(** The words that cannot name a binding in a module. *)
Definition reserved_words : list jsstring :=
  [js "await"; js "break"; js "case"; js "catch"; js "class"; js "const";
   js "continue"; js "debugger"; js "default"; js "delete"; js "do";
   js "else"; js "enum"; js "export"; js "extends"; js "false";
   js "finally"; js "for"; js "function"; js "if"; js "implements";
   js "import"; js "in"; js "instanceof"; js "interface"; js "let";
   js "new"; js "null"; js "package"; js "private"; js "protected";
   js "public"; js "return"; js "static"; js "super"; js "switch";
   js "this"; js "throw"; js "true"; js "try"; js "typeof"; js "var";
   js "void"; js "while"; js "with"; js "yield"].

Definition identifier_start (c : ascii) : bool :=
  is_letter c || Ascii.eqb c "_" || Ascii.eqb c "$".

Definition identifier_part (c : ascii) : bool :=
  identifier_start c || ((48 <=? char_code c) && (char_code c <=? 57))%nat.

(** A name that an import can bind: letters, digits, [_] and [$], no
    digit first, and not a reserved word.  Such a name is printed into
    the file and read back as itself. *)
Definition identifier (name : jsstring) : bool :=
  match name with
  | [] => false
  | c :: rest =>
      identifier_start c && forallb identifier_part rest
      && negb (bool_decide (name ∈ reserved_words))
  end.

(** Text that a string literal holds as it is written: printable ASCII
    without quotes and backslashes. *)
Definition literal_text (s : jsstring) : bool :=
  forallb (fun c => ((32 <=? char_code c) && (char_code c <? 127))%nat
                    && negb (Ascii.eqb c "'")
                    && negb (Ascii.eqb c (ascii_of_nat 34))
                    && negb (Ascii.eqb c "\")
                    && negb (Ascii.eqb c "`")) s.

(** A request whose names are identifiers: the namespace import when it
    is truthy, and every named import. *)
Definition plain_names (options : ImportOptions) : bool :=
  (if truthy_string (opt_namespaceImport options)
   then identifier (default [] (opt_namespaceImport options)) else true)
  && forallb identifier (default [] (opt_namedImports options)).

(** A request for a new declaration that prints as written: its names
    are identifiers and the module specifier it resolves to is the text
    of a literal. *)
Definition plain_request (cwd : jsstring) (sf : SourceFile)
    (options : ImportOptions) : bool :=
  plain_names options
  && literal_text (getModuleSpecifierString cwd (opt_moduleSpecifier options) sf).

(** The structure of a request is one ts-morph accepts: it does not ask
    for named imports next to a namespace import. *)
Definition accepted_structure (options : ImportOptions) : bool :=
  negb (truthy_string (opt_namespaceImport options))
  || bool_decide (default [] (opt_namedImports options) = []).

(** A file that starts with a comment on lines of its own. *)
Definition starts_with_comment (sf : SourceFile) : bool :=
  match statements sf with
  | CommentNode _ _ :: _ => true
  | _ => false
  end.



(** The files of a project after one more was added: the same files and
    the new one, the listing order aside. *)
Definition one_more_file (f : SourceFile) (before after : list SourceFile)
  : Prop :=
  after ≡ₚ f :: before.

(** ** Sample inputs *)

Definition pluginFile : SourceFile :=
  mkSourceFile (js "/project/src/plugin.ts")
    [OtherStatement (js "export class MyPlugin {}")].

Definition serviceFile : SourceFile :=
  mkSourceFile (js "/project/src/service.ts") [].

Definition serviceImport : ImportOptions :=
  mkImportOptions (SpecifierSourceFile serviceFile) (Some [js "MyService"])
                  None None.


Definition configDeclaration : VariableDeclaration :=
  mkVariableDeclaration (js "config") (js "VendureConfig")
    [OtherNode (js "config"); OtherNode (js "VendureConfig");
     ObjectLiteralExpression (js "{ apiOptions: {} }")].

Definition configFile : SourceFile :=
  mkSourceFile (js "/project/src/vendure-config.ts")
    [VariableStatement [configDeclaration]].

Definition otherConfigFile : SourceFile :=
  mkSourceFile (js "/project/src/extra/vendure-config.ts")
    [VariableStatement
       [mkVariableDeclaration (js "extra") (js "VendureConfig")
          [ObjectLiteralExpression (js "{}")]]].

Definition indexFile : SourceFile :=
  mkSourceFile (js "/project/src/index.ts")
    [VariableStatement
       [mkVariableDeclaration (js "devConfig") (js "VendureConfig")
          [ObjectLiteralExpression (js "{ dev: true }")]]].

(** A listing order for the sample projects: the paths compared code
    unit by code unit. *)
Fixpoint pathOrder (a b : jsstring) : bool :=
  match a, b with
  | _, [] => false
  | [], _ :: _ => true
  | c :: a', d :: b' =>
      (char_code c <? char_code d)%nat
      || ((char_code c =? char_code d)%nat && pathOrder a' b')
  end.


(** A file that starts with a line comment. *)
Definition commentedFile : SourceFile :=
  mkSourceFile (js "/project/src/plugin.ts")
    [CommentNode false (js "// the plugin");
     ImportStatement
       (mkImportDeclaration (js "@vendure/core") None None
          [js "PluginCommonModule"]);
     OtherStatement (js "export class MyPlugin {}")].

Definition noDisk : FileSystem :=
  mkFileSystem (fun _ => false) (fun _ => None) (fun _ => None) (fun _ => None).

(** A disk that holds one template. *)
Definition templateDisk (content : jsstring) : FileSystem :=
  mkFileSystem
    (fun p => bool_decide (p = js "templates/plugin.ts.template"))
    (fun p => if bool_decide (p = js "templates/plugin.ts.template")
              then Some content else None)
    (fun _ => None) (fun _ => None).

(** A disk whose [src] directory holds the configuration file. *)
Definition srcDisk : FileSystem :=
  mkFileSystem
    (fun _ => false) (fun _ => None)
    (fun p => if bool_decide (p = js "/project/src")
              then Some [js "index.ts"; js "vendure-config.ts"] else None)
    (fun p => if bool_decide (p = js "/project/src/vendure-config.ts")
              then Some (statements configFile) else None).

(** A file that imports from [@vendure/core]. *)
Definition coreFile : SourceFile :=
  mkSourceFile (js "/project/src/plugin.ts")
    [ImportStatement
       (mkImportDeclaration (js "@vendure/core") None None
          [js "PluginCommonModule"]);
     OtherStatement (js "export class MyPlugin {}")].

(** A listing whose first entry with the conventional name in it is a
    backup copy. *)
Definition backupDisk : FileSystem :=
  mkFileSystem
    (fun _ => false) (fun _ => None)
    (fun p => if bool_decide (p = js "/project/src")
              then Some [js "index.ts"; js "vendure-config.ts.bak";
                         js "vendure-config.ts"]
              else None)
    (fun p => if bool_decide (p = js "/project/src/vendure-config.ts.bak")
              then Some (statements configFile)
              else if bool_decide (p = js "/project/src/vendure-config.ts")
              then Some (statements configFile) else None).

Definition tsconfigDisk : FileSystem :=
  mkFileSystem (fun p => bool_decide (p = js "/home/dev/shop/tsconfig.json"))
               (fun _ => None) (fun _ => None) (fun _ => None).

Definition twoTemplatesDisk : FileSystem :=
  mkFileSystem
    (fun _ => true)
    (fun p => if bool_decide (p = js "templates/plugin.ts.template")
              then Some (js "export class Foo {}")
              else if bool_decide (p = js "templates/service.ts.template")
              then Some (js "export class Bar {}") else None)
    (fun _ => None) (fun _ => None).

Definition pluginClass : ClassDeclaration :=
  mkClassDeclaration (js "MyPlugin")
    [DecoratorModifier (js "VendurePlugin"); KeywordModifier (js "export")].

Definition serviceClass : ClassDeclaration :=
  mkClassDeclaration (js "MyService")
    [DecoratorModifier (js "Injectable"); KeywordModifier (js "export")].

(** ** Proof automation *)

Ltac by_ascii_cases c :=
  destruct c as [[] [] [] [] [] [] [] []]; vm_compute; try done;
  intuition congruence.

Ltac scan_field :=
  first
    [ done
    | lia
    | split; intros; first [congruence | lia]
    | intros _; split; [lia | assumption]
    | by left
    | right; lia
    | match goal with
      | H : _ ∨ _ |- _ ∨ _ => destruct H as [?|?]; [by left | right; lia]
      end ].

Ltac decide_string :=
  match goal with
  | |- ?P => apply (@bool_decide_unpack P _); vm_compute; exact I
  end.

Import NodePath LocaleDatePipe.

(** * Properties *)

(** ** Characters *)

Lemma toUpperCase_fixed_iff (c : ascii) :
  toUpperCase c = c ↔ is_lower_letter c = false.
Proof. by_ascii_cases c. Qed.

Lemma toLowerCase_lower (c : ascii) :
  is_lower_letter c = true → toLowerCase c = c.
Proof. by_ascii_cases c. Qed.

Lemma upper_letter_fixed (c : ascii) :
  is_upper_letter c = true → toUpperCase c = c.
Proof. by_ascii_cases c. Qed.

Lemma letter_cases (c : ascii) :
  is_letter c = true →
  (is_upper_letter c = true ∧ is_lower_letter c = false)
  ∨ (is_upper_letter c = false ∧ is_lower_letter c = true).
Proof. by_ascii_cases c. Qed.

(** ** [kebabize] *)

(** At the first position the code and the specification agree on every
    character: no hyphen, and the character lowercased. *)
Lemma kebabize_letter_first (c : ascii) :
  kebabize_letter 0 c = kebab_spec_letter 0 c.
Proof.
  unfold kebabize_letter, kebab_spec_letter.
  rewrite andb_false_r. simpl.
  destruct (Ascii.eqb (toUpperCase c) c) eqn:E; [done|].
  f_equal. symmetry. apply toLowerCase_lower.
  destruct (is_lower_letter c) eqn:L; [done|].
  apply toUpperCase_fixed_iff in L. apply Ascii.eqb_eq in L. congruence.
Qed.

Lemma kebabize_letter_on_letter (i : nat) (c : ascii) :
  is_letter c = true → kebabize_letter i c = kebab_spec_letter i c.
Proof.
  intros H. unfold kebabize_letter, kebab_spec_letter.
  destruct (letter_cases c H) as [[U L]|[U L]]; rewrite U.
  - rewrite (proj2 (Ascii.eqb_eq _ _) (upper_letter_fixed c U)). done.
  - simpl. destruct (Ascii.eqb (toUpperCase c) c) eqn:E.
    + apply Ascii.eqb_eq, toUpperCase_fixed_iff in E. congruence.
    + by rewrite toLowerCase_lower.
Qed.

Lemma imap_shift {B} (h : nat → ascii → B) (k : nat) (l : jsstring) :
  imap ((fun j => h (k + j)%nat) ∘ S) l = imap (fun j => h (S k + j)%nat) l.
Proof. apply imap_ext. intros i x _. simpl. f_equal. lia. Qed.

Lemma kebab_letter_lengths (i : nat) (c : ascii) :
  is_letter c = false →
  length (kebabize_letter (S i) c) = 2%nat
  ∧ length (kebab_spec_letter (S i) c) = 1%nat.
Proof.
  intros Hc. unfold kebabize_letter, kebab_spec_letter.
  assert (Hl : is_lower_letter c = false ∧ is_upper_letter c = false).
  { unfold is_letter in Hc. by apply orb_false_elim in Hc. }
  destruct Hl as [Hl Hu]. rewrite Hu.
  rewrite (proj2 (Ascii.eqb_eq _ _) (proj2 (toUpperCase_fixed_iff c) Hl)).
  done.
Qed.

Lemma kebab_spec_letter_length (i : nat) (c : ascii) :
  (length (kebab_spec_letter i c) ≤ length (kebabize_letter i c))%nat.
Proof.
  destruct i as [|i]; [by rewrite kebabize_letter_first|].
  destruct (is_letter c) eqn:Hc.
  - by rewrite kebabize_letter_on_letter.
  - destruct (kebab_letter_lengths i c Hc) as [-> ->]. lia.
Qed.

(** Pieces past the first position: the specification's output is never
    longer than the code's, and the two are equal only on letters. *)
Lemma kebab_tail_length (k : nat) (l : jsstring) :
  (length (concat (imap (fun j => kebab_spec_letter (k + j)) l))
   ≤ length (concat (imap (fun j => kebabize_letter (k + j)) l)))%nat.
Proof.
  revert k. induction l as [|c l IH]; intros k; [done|].
  rewrite !imap_cons. simpl. rewrite !length_app.
  pose proof (kebab_spec_letter_length (k + 0) c).
  specialize (IH (S k)). rewrite !imap_shift. lia.
Qed.

Lemma kebab_tail_equal (k : nat) (l : jsstring) :
  concat (imap (fun j => kebabize_letter (S k + j)) l)
  = concat (imap (fun j => kebab_spec_letter (S k + j)) l) →
  forallb is_letter l = true.
Proof.
  revert k. induction l as [|c l IH]; intros k; [done|].
  rewrite !imap_cons, !imap_shift. cbn [concat].
  intros Heq. cbn [forallb]. destruct (is_letter c) eqn:Hc; simpl.
  - rewrite kebabize_letter_on_letter in Heq by done.
    apply app_inv_head in Heq. by apply (IH (S k)).
  - exfalso. apply (f_equal length) in Heq. rewrite !length_app in Heq.
    replace (S k + 0)%nat with (S k) in Heq by lia.
    destruct (kebab_letter_lengths k c Hc) as [H2 H1].
    rewrite H2, H1 in Heq.
    pose proof (kebab_tail_length (S (S k)) l). lia.
Qed.

(** C3, as amended: on strings of ASCII characters, [kebabize] is the
    conversion of the specification (every character lowercased, a
    hyphen in front of every uppercase character but the first) exactly
    when every character after the first is a letter; the four examples
    of the specification hold. *)
Theorem kebabize_on_letters :
  (∀ s : jsstring,
      kebabize s = kebab_spec s ↔ forallb is_letter (drop 1 s) = true)
  ∧ kebabize "fooBar" = "foo-bar"
  ∧ kebabize "FooBar" = "foo-bar"
  ∧ kebabize "" = ""
  ∧ kebabize "abc" = "abc".
Proof.
  split; [|by vm_compute].
  intros s. split.
  - destruct s as [|c s]; [done|]. unfold kebabize, kebab_spec.
    rewrite !imap_cons. simpl. rewrite kebabize_letter_first.
    intros Heq%app_inv_head. rewrite drop_0. apply (kebab_tail_equal 0).
    etrans; [|etrans; [exact Heq|]]; f_equal; apply imap_ext; done.
  - intros Hs. unfold kebabize, kebab_spec. f_equal.
    apply imap_ext. intros i x Hix.
    destruct i as [|i]; [apply kebabize_letter_first|].
    apply kebabize_letter_on_letter.
    rewrite forallb_forall in Hs. apply Hs.
    apply list_elem_of_In. apply list_elem_of_lookup. exists i.
    by rewrite lookup_drop.
Qed.

Lemma kebabize_on_letters_witness :
  kebabize "vendureConfig" = kebab_spec "vendureConfig".
Proof.
  apply (proj1 kebabize_on_letters (js "vendureConfig")).
  vm_compute. reflexivity.
Defined.

(** C3 as stated fails on a digit: the code puts a hyphen in front of
    the [1] of [foo1], the conversion of the specification does not. *)
Lemma kebabize_digit_counterexample :
  kebabize "foo1" = "foo-1" ∧ kebab_spec "foo1" = "foo1"
  ∧ kebabize "foo1" ≠ kebab_spec "foo1".
Proof. vm_compute. repeat split; congruence. Qed.

Lemma kebabize_app (s t : jsstring) :
  kebabize (s ++ t)
  = kebabize s ++ concat (imap (fun j => kebabize_letter (length s + j)) t).
Proof. unfold kebabize. by rewrite imap_app, concat_app. Qed.

(** C9: on strings of ASCII characters, at every position [i > 0] the
    output of [kebabize] continues, after the output for the first [i]
    characters, with a hyphen and the lowercased character when the
    character equals its own uppercase form, and with the character
    alone otherwise; the ASCII characters equal to their uppercase form
    are all those that are not lowercase letters (digits, punctuation,
    whitespace, uppercase letters); so [kebabize "foo1" = "foo-1"] and
    [kebabize "a-b" = "a--b"]. *)
Theorem kebabize_hyphen_iff_unchanged :
  (∀ (s : jsstring) (i : nat) (c : ascii),
      ascii_only s → (0 < i)%nat → s !! i = Some c →
      kebabize s
      = kebabize (take i s)
        ++ (if Ascii.eqb (toUpperCase c) c
            then ["-"%char; toLowerCase c] else [c])
        ++ concat (imap (fun j => kebabize_letter (S i + j)) (drop (S i) s)))
  ∧ (∀ c : ascii, is_ascii c = true →
                   (toUpperCase c = c ↔ is_lower_letter c = false))
  ∧ kebabize "foo1" = "foo-1"
  ∧ kebabize "a-b" = "a--b".
Proof.
  split; [|split; [intros c _; apply toUpperCase_fixed_iff | by vm_compute]].
  intros s i c _ Hi Hc.
  rewrite <- (take_drop_middle s i c Hc) at 1.
  rewrite kebabize_app. f_equal.
  assert (Hlen : length (take i s) = i).
  { apply length_take_le. apply lookup_lt_Some in Hc. lia. }
  rewrite Hlen. rewrite imap_cons. simpl. rewrite Nat.add_0_r.
  unfold kebabize_letter at 1.
  destruct i as [|i]; [lia|]. simpl.
  destruct (Ascii.eqb (toUpperCase c) c); simpl; f_equal; try f_equal;
    apply imap_ext; intros j x _; simpl; f_equal; lia.
Qed.

Lemma kebabize_hyphen_iff_unchanged_witness :
  kebabize "foo1"
  = kebabize (take 3 (js "foo1")) ++ ["-"%char; "1"%char] ++ [].
Proof.
  exact (proj1 kebabize_hyphen_iff_unchanged (js "foo1") 3%nat "1"%char
           eq_refl ltac:(lia) eq_refl).
Defined.

(** ** Separators in strings *)

Lemma replace_backslashes_no_backslash (s : jsstring) :
  "\"%char ∉ replace_backslashes s.
Proof.
  unfold replace_backslashes. intros H.
  apply list_elem_of_fmap in H as (c & Hc & _).
  destruct (Ascii.eqb c "\") eqn:E; [discriminate|].
  apply Ascii.eqb_neq in E. congruence.
Qed.

Lemma replace_double_slashes_elem (s : jsstring) (c : ascii) :
  c ∈ replace_double_slashes s → c ∈ s.
Proof.
  revert c. induction s as [s IH] using (induction_ltof1 _ (@length ascii)).
  unfold ltof in IH. intros c.
  destruct s as [|a [|b rest]]; simpl; [done|done|].
  destruct (Ascii.eqb a "/" && Ascii.eqb b "/") eqn:E.
  - apply andb_prop in E as [Ea Eb]. apply Ascii.eqb_eq in Ea, Eb. subst.
    intros [->|H]%elem_of_cons; [left|].
    apply (IH rest) in H; [|simpl; lia]. by do 2 right.
  - intros [->|H]%elem_of_cons; [left|].
    right. apply (IH (b :: rest)); [simpl; lia|done].
Qed.

Lemma replace_double_slashes_keeps_slash (rest : jsstring) :
  ∃ out, replace_double_slashes ("/"%char :: rest) = "/"%char :: out.
Proof.
  destruct rest as [|b rest]; simpl; [by eexists|].
  destruct (Ascii.eqb b "/"); by eexists.
Qed.

Lemma has_double_slash_cons2 (a b : ascii) (s : jsstring) :
  has_double_slash (a :: b :: s)
  = (Ascii.eqb a "/" && Ascii.eqb b "/") || has_double_slash (b :: s).
Proof. reflexivity. Qed.

Lemma has_double_slash_cons_ne (c : ascii) (s : jsstring) :
  c ≠ "/"%char → has_double_slash (c :: s) = has_double_slash s.
Proof.
  intros Hc. destruct s as [|d s]; [done|].
  change (has_double_slash (c :: d :: s))
    with ((Ascii.eqb c "/" && Ascii.eqb d "/") || has_double_slash (d :: s)).
  apply Ascii.eqb_neq in Hc. by rewrite Hc.
Qed.

Lemma has_double_slash_no_slash (s : jsstring) :
  "/"%char ∉ s → has_double_slash s = false.
Proof.
  induction s as [|c s IH]; [done|]. intros H.
  rewrite has_double_slash_cons_ne; [|intros ->; apply H; left].
  apply IH. intros H'. apply H. by right.
Qed.

Lemma has_double_slash_slash_cons (s : jsstring) :
  "/"%char ∉ s → has_double_slash ("/"%char :: s) = false.
Proof.
  intros H. destruct s as [|d s]; [done|].
  change (has_double_slash ("/"%char :: d :: s))
    with ((Ascii.eqb "/" "/" && Ascii.eqb d "/") || has_double_slash (d :: s)).
  rewrite has_double_slash_no_slash by done.
  destruct (Ascii.eqb d "/") eqn:E; [|done].
  apply Ascii.eqb_eq in E. subst. exfalso. apply H. left.
Qed.

Lemma replace_double_slashes_id (s : jsstring) :
  has_double_slash s = false → replace_double_slashes s = s.
Proof.
  induction s as [|a s IH]; [done|].
  destruct s as [|b rest]; [done|].
  change (has_double_slash (a :: b :: rest))
    with ((Ascii.eqb a "/" && Ascii.eqb b "/") || has_double_slash (b :: rest)).
  intros [E1 E2]%orb_false_elim.
  change (replace_double_slashes (a :: b :: rest))
    with (if Ascii.eqb a "/" && Ascii.eqb b "/"
          then "/"%char :: replace_double_slashes rest
          else a :: replace_double_slashes (b :: rest)).
  rewrite E1. f_equal. by apply IH.
Qed.

(** Index form of the absence of two adjacent slashes. *)
Lemma has_double_slash_false_lookup (s : jsstring) (i : nat) :
  has_double_slash s = false →
  s !! i = Some "/"%char → s !! S i = Some "/"%char → False.
Proof.
  revert i. induction s as [|a s IH]; [done|]. intros i H.
  destruct s as [|b rest]; [by destruct i|].
  change (has_double_slash (a :: b :: rest))
    with ((Ascii.eqb a "/" && Ascii.eqb b "/") || has_double_slash (b :: rest)) in H.
  apply orb_false_elim in H as [E1 E2].
  destruct i as [|i]; simpl.
  - intros [= ->] [= ->]. done.
  - apply IH. done.
Qed.

Lemma has_double_slash_take (s : jsstring) (n : nat) :
  has_double_slash s = false → has_double_slash (take n s) = false.
Proof.
  revert n. induction s as [|a s IH]; intros n H; [by destruct n|].
  destruct n as [|n]; [done|].
  destruct s as [|b rest]; [by destruct n|].
  change (has_double_slash (a :: b :: rest))
    with ((Ascii.eqb a "/" && Ascii.eqb b "/") || has_double_slash (b :: rest)) in H.
  apply orb_false_elim in H as [E1 E2].
  specialize (IH n E2).
  destruct n as [|n]; [done|].
  change (has_double_slash (take (S (S n)) (a :: b :: rest)))
    with ((Ascii.eqb a "/" && Ascii.eqb b "/") || has_double_slash (take (S n) (b :: rest))).
  by rewrite E1, IH.
Qed.

(** A directory part that neither has two adjacent slashes nor ends in a
    slash can be followed by a separator and a slash-free name. *)
Lemma has_double_slash_dir_name (d n : jsstring) :
  has_double_slash d = false → last d ≠ Some "/"%char → "/"%char ∉ n →
  has_double_slash (d ++ "/"%char :: n) = false.
Proof.
  intros Hd Hl Hn. induction d as [|a d IH].
  - by apply has_double_slash_slash_cons.
  - destruct d as [|b rest].
    + change ([a] ++ "/"%char :: n) with (a :: "/"%char :: n).
      rewrite has_double_slash_cons_ne; [|intros ->; by apply Hl].
      by apply has_double_slash_slash_cons.
    + change (has_double_slash (a :: b :: rest))
        with ((Ascii.eqb a "/" && Ascii.eqb b "/") || has_double_slash (b :: rest)) in Hd.
      apply orb_false_elim in Hd as [E1 E2].
      rewrite <- !app_comm_cons, has_double_slash_cons2, E1.
      rewrite app_comm_cons. apply IH; [done|].
      by rewrite last_cons_cons in Hl.
Qed.

(** ** The backward scan of [posix.parse] *)

Lemma scan_inv_init (path : jsstring) (k : nat) : scan_inv path k scan_init.
Proof. split; simpl; try done; auto. Qed.

Lemma not_slash_between_extend (path : jsstring) (i : nat) (b : Z) :
  charAt path i ≠ "/"%char →
  not_slash_between path (Z.of_nat (S i)) b →
  not_slash_between path (Z.of_nat i) b.
Proof.
  intros Hi H j Hj. destruct (decide (j = i)) as [->|Hne]; [done|].
  apply H. lia.
Qed.

(** Leaving the loop by its condition. *)
Lemma scan_stop (path : jsstring) (start k : nat) (st : ScanState) :
  (k = start ∧ k ≤ length path)%nat →
  scan_inv path k st → scan_post path start st.
Proof.
  intros [-> Hk] [Hp Hm He Hd]. split; rewrite Hp.
  - lia.
  - lia.
  - intros He'. destruct (He He') as [? Hns]. split; [lia|].
    intros j Hj. apply Hns. lia.
  - destruct Hd as [?|?]; [by left|right; lia].
Qed.

Lemma scan_correct (path : jsstring) (start k : nat) (st : ScanState) :
  (start ≤ k ≤ length path)%nat →
  scan_inv path k st → scan_post path start (scan path start k st).
Proof.
  revert st. induction k as [|i IH]; intros st Hk [Hp Hm He Hd].
  - simpl. apply (scan_stop path start 0 st); [lia|by split].
  - simpl. destruct (Nat.ltb_spec i start) as [Hlt|Hge].
    { apply (scan_stop path start (S i) st); [lia|by split]. }
    destruct (Ascii.eqb (charAt path i) "/") eqn:Ec.
    + apply Ascii.eqb_eq in Ec.
      destruct (matchedSlash st) eqn:Ems; simpl.
      * apply IH; [lia|].
        assert (Hend : end_ st = -1) by (by apply Hm).
        split; [done|done|intros; congruence|].
        left. destruct Hd as [?|?]; [done|lia].
      * assert (Hend : end_ st ≠ -1).
        { intros Hend. apply Hm in Hend. congruence. }
        destruct (He Hend) as [Hrange Hns].
        split; simpl.
        -- lia.
        -- intros _. split; [|lia].
           replace (Z.to_nat (Z.of_nat i + 1 - 1)) with i by lia. done.
        -- intros _. split; [lia|].
           intros j Hj. apply Hns. lia.
        -- destruct Hd as [?|?]; [by left|right; lia].
    + apply Ascii.eqb_neq in Ec.
      apply IH; [lia|].
      destruct (Z.eqb_spec (end_ st) (-1)) as [Hend|Hend].
      * (* the last character of the last component *)
        assert (Hsd : startDot st = -1) by (destruct Hd as [?|?]; [done|lia]).
        assert (Hns : not_slash_between path (Z.of_nat i) (Z.of_nat i + 1)).
        { intros j Hj. replace j with i by lia. done. }
        destruct (Ascii.eqb (charAt path i) "."); simpl; rewrite Hsd; simpl;
          split; simpl; scan_field.
      * destruct (He Hend) as [Hrange Hns0].
        assert (Hns : not_slash_between path (Z.of_nat i) (end_ st)).
        { apply not_slash_between_extend; [done|].
          intros j Hj. apply Hns0. lia. }
        destruct (Ascii.eqb (charAt path i) ".");
          destruct (Z.eqb_spec (startDot st) (-1)) as [Hsd|Hsd]; simpl;
          try (destruct (Z.eqb_spec (preDotState st) 1); simpl);
          split; simpl; scan_field.
Qed.

Lemma parse_scan_post (path : jsstring) (start : nat) :
  (start ≤ length path)%nat →
  scan_post path start (scan path start (length path) scan_init).
Proof.
  intros H. apply scan_correct; [lia|apply scan_inv_init].
Qed.

(** ** What [posix.parse] returns *)

Lemma slice_elem (path : jsstring) (a b : Z) (c : ascii) :
  0 ≤ a → c ∈ slice path a b →
  ∃ j : nat, a ≤ Z.of_nat j < b ∧ path !! j = Some c.
Proof.
  intros Ha. unfold slice. rewrite elem_of_take. intros (i & Hi & Hlt).
  rewrite lookup_drop in Hi. exists (Z.to_nat a + i)%nat. split; [lia|done].
Qed.

Lemma slice_subset (path : jsstring) (a b : Z) (c : ascii) :
  c ∈ slice path a b → c ∈ path.
Proof.
  unfold slice. intros H%elem_of_take. destruct H as (i & Hi & _).
  rewrite lookup_drop in Hi. apply list_elem_of_lookup. eauto.
Qed.

Lemma charAt_lookup (path : jsstring) (j : nat) (c : ascii) :
  path !! j = Some c → charAt path j = c.
Proof. unfold charAt. by intros ->. Qed.

Lemma not_slash_between_slice (path : jsstring) (a b e : Z) :
  0 ≤ a → b ≤ e → not_slash_between path a e → "/"%char ∉ slice path a b.
Proof.
  intros Ha Hb Hns Hin. apply slice_elem in Hin as (j & Hj & Hc); [|done].
  apply (Hns j); [lia|]. by apply charAt_lookup.
Qed.

(** The [name] that [parse] returns never holds a separator. *)
Lemma parse_name_no_slash (path : jsstring) : "/"%char ∉ name (parse path).
Proof.
  unfold parse. destruct (Nat.eqb_spec (length path) 0) as [|Hlen]; simpl.
  { apply not_elem_of_nil. }
  set (abs := Ascii.eqb (charAt path 0) "/").
  set (start := if abs then 1%nat else 0%nat).
  assert (Hstart : (start ≤ length path)%nat) by (subst start; destruct abs; lia).
  pose proof (parse_scan_post path start Hstart) as [Hsp Hbr He Hd].
  set (st := scan path start (length path) scan_init) in *.
  destruct (Z.eqb_spec (end_ st) (-1)) as [Hend|Hend]; simpl.
  { apply not_elem_of_nil. }
  destruct (He Hend) as [Hrange Hns].
  assert (Hmax : (if (startPart st =? 0) && abs then 1 else startPart st)
                 = Z.max (Z.of_nat start) (startPart st)).
  { subst start. destruct (Z.eqb_spec (startPart st) 0), abs; simpl; lia. }
  rewrite Hmax.
  destruct ((startDot st =? -1)
            || (preDotState st =? 0)
            || ((preDotState st =? 1) && (startDot st =? end_ st - 1)
                && (startDot st =? startPart st + 1))) eqn:Hc; simpl.
  - apply (not_slash_between_slice _ _ _ (end_ st)); [lia|lia|done].
  - apply (not_slash_between_slice _ _ _ (end_ st)); [lia| |done].
    destruct Hd as [Hd|Hd]; [|lia].
    rewrite Hd in Hc. simpl in Hc. done.
Qed.

(** Every character of the [dir] and of the [name] comes from the path
    or is a separator. *)
Lemma parse_dir_elem (path : jsstring) (c : ascii) :
  c ∈ dir (parse path) → c ∈ path ∨ c = "/"%char.
Proof.
  unfold parse. destruct (length path =? 0)%nat; simpl.
  { by intros ?%elem_of_nil. }
  destruct (startPart _ >? 0).
  - intros H%slice_subset. by left.
  - destruct (Ascii.eqb (charAt path 0) "/").
    + intros ->%list_elem_of_singleton. by right.
    + by intros ?%elem_of_nil.
Qed.

Lemma parse_name_elem (path : jsstring) (c : ascii) :
  c ∈ name (parse path) → c ∈ path.
Proof.
  unfold parse. destruct (length path =? 0)%nat; simpl.
  { by intros ?%elem_of_nil. }
  destruct (negb _); simpl; [|by intros ?%elem_of_nil].
  destruct (_ || _); simpl; apply slice_subset.
Qed.

Lemma startsWith_slash (c : ascii) (p : jsstring) :
  startsWith (c :: p) "/" = Ascii.eqb "/" c.
Proof.
  change (startsWith (c :: p) "/") with (Ascii.eqb "/" c && startsWith p []).
  destruct p; apply andb_true_r.
Qed.

(** The [dir] of a relative path without two adjacent separators: empty,
    or a prefix with the same property that does not end in a
    separator. *)
Lemma parse_dir_relative (path : jsstring) :
  startsWith path "/" = false → has_double_slash path = false →
  dir (parse path) = []
  ∨ (∃ c d, dir (parse path) = c :: d ∧ c ≠ "/"%char)
    ∧ has_double_slash (dir (parse path)) = false
    ∧ last (dir (parse path)) ≠ Some "/"%char.
Proof.
  intros Hrel Hds. unfold parse.
  destruct (Nat.eqb_spec (length path) 0) as [|Hlen]; simpl; [by left|].
  assert (Habs : Ascii.eqb (charAt path 0) "/" = false).
  { destruct path as [|c p]; [done|].
    rewrite startsWith_slash in Hrel. by rewrite Ascii.eqb_sym. }
  rewrite Habs.
  pose proof (parse_scan_post path 0 ltac:(lia)) as [Hsp Hbr He Hd].
  set (st := scan path 0 (length path) scan_init) in *.
  destruct (Z.gtb_spec (startPart st) 0) as [Hgt|Hle]; [|by left].
  right. destruct (Hbr Hgt) as [Hslash _].
  set (n := Z.to_nat (startPart st - 1)) in *.
  assert (Hn : (n < length path)%nat) by lia.
  assert (Hlook : path !! n = Some "/"%char).
  { destruct (lookup_lt_is_Some_2 path n Hn) as [c Hc].
    rewrite <- Hslash. by rewrite (charAt_lookup _ _ _ Hc). }
  assert (Hdir : slice path 0 (startPart st - 1) = take n path).
  { unfold slice. simpl. by rewrite Z.sub_0_r. }
  rewrite Hdir.
  assert (Hn0 : n ≠ 0%nat).
  { intros Hn0. rewrite Hn0 in Hlook. unfold charAt in Habs.
    rewrite Hlook in Habs. simpl in Habs. done. }
  split; [|split].
  - destruct path as [|c p]; [simpl in Hlen; lia|].
    destruct n as [|n']; [done|]. exists c, (take n' p). split; [done|].
    intros ->. unfold charAt in Habs. simpl in Habs. done.
  - by apply has_double_slash_take.
  - rewrite last_lookup, length_take_le by lia.
    rewrite lookup_take_lt by lia.
    intros Hprev. apply (has_double_slash_false_lookup path (pred n) Hds Hprev).
    replace (S (pred n)) with n by lia. done.
Qed.

(** ** [convertPathToRelativeImport] *)

Lemma convert_unfold (p : jsstring) :
  convertPathToRelativeImport p
  = replace_double_slashes
      ("."%char :: "/"%char
         :: dir (parse (replace_backslashes p))
         ++ "/"%char :: name (parse (replace_backslashes p))).
Proof. reflexivity. Qed.

Lemma replace_double_slashes_dot (s : jsstring) :
  replace_double_slashes ("."%char :: s) = "."%char :: replace_double_slashes s.
Proof. destruct s; reflexivity. Qed.

Lemma convert_prefix (p : jsstring) :
  ∃ rest, convertPathToRelativeImport p = "."%char :: "/"%char :: rest.
Proof.
  rewrite convert_unfold, replace_double_slashes_dot.
  destruct (replace_double_slashes_keeps_slash
              (dir (parse (replace_backslashes p))
                 ++ "/"%char :: name (parse (replace_backslashes p))))
    as [out ->].
  by exists out.
Qed.

Lemma convert_no_backslash (p : jsstring) :
  "\"%char ∉ convertPathToRelativeImport p.
Proof.
  rewrite convert_unfold. intros H%replace_double_slashes_elem.
  pose proof (replace_backslashes_no_backslash p) as Hq.
  set (q := replace_backslashes p) in *.
  apply elem_of_cons in H as [H|H]; [discriminate|].
  apply elem_of_cons in H as [H|H]; [discriminate|].
  apply elem_of_app in H as [H|H].
  - apply parse_dir_elem in H as [H|H]; [done|discriminate].
  - apply elem_of_cons in H as [H|H]; [discriminate|].
    by apply parse_name_elem in H.
Qed.

Lemma convert_no_double_slash (p : jsstring) :
  startsWith (replace_backslashes p) "/" = false →
  has_double_slash (replace_backslashes p) = false →
  has_double_slash (convertPathToRelativeImport p) = false.
Proof.
  intros Hrel Hds. rewrite convert_unfold, replace_double_slashes_dot.
  set (q := replace_backslashes p) in *.
  pose proof (parse_name_no_slash q) as Hname.
  rewrite has_double_slash_cons_ne by done.
  destruct (parse_dir_relative q Hrel Hds) as [->|([c [d [Hdir Hc]]] & Hd & Hl)].
  - change (replace_double_slashes ("/"%char :: [] ++ "/"%char :: name (parse q)))
      with ("/"%char :: replace_double_slashes (name (parse q))).
    rewrite replace_double_slashes_id by (by apply has_double_slash_no_slash).
    by apply has_double_slash_slash_cons.
  - assert (Hall : has_double_slash
                     ("/"%char :: dir (parse q) ++ "/"%char :: name (parse q))
                   = false).
    { pose proof (has_double_slash_dir_name _ _ Hd Hl Hname) as Hdn.
      rewrite Hdir in *. rewrite <- app_comm_cons, has_double_slash_cons2.
      rewrite app_comm_cons, Hdn.
      apply Ascii.eqb_neq in Hc. by rewrite Hc. }
    by rewrite replace_double_slashes_id.
Qed.

Lemma startsWith_dot_slash (rest : jsstring) :
  startsWith ("."%char :: "/"%char :: rest) "./" = true.
Proof.
  change (startsWith ("."%char :: "/"%char :: rest) "./")
    with (Ascii.eqb "." "." && (Ascii.eqb "/" "/" && startsWith rest [])).
  by destruct rest.
Qed.

(** ** What [posix.relative] returns *)

Lemma split_on_segments (sep : ascii) (s : jsstring) :
  Forall (fun seg => (sep ∉ seg) ∧ seg ⊆ s) (split_on sep s).
Proof.
  induction s as [|c s IH]; simpl.
  - constructor; [|constructor]. split; [apply not_elem_of_nil|done].
  - assert (IH' : Forall (fun seg => (sep ∉ seg) ∧ seg ⊆ c :: s) (split_on sep s)).
    { eapply Forall_impl; [exact IH|]. intros seg [? Hsub]. split; [done|].
      intros x Hx. right. by apply Hsub. }
    destruct (Ascii.eqb c sep) eqn:E.
    + constructor; [|done]. split; [apply not_elem_of_nil|].
      by intros x ?%elem_of_nil.
    + apply Ascii.eqb_neq in E.
      destruct (split_on sep s) as [|seg segs].
      * constructor; [|constructor]. split.
        -- by intros ->%list_elem_of_singleton.
        -- intros x ->%list_elem_of_singleton. left.
      * inversion IH' as [|? ? [Hsep Hsub] Hrest]; subst.
        constructor; [|done]. split.
        -- intros [->|?]%elem_of_cons; done.
        -- intros x [->|Hx]%elem_of_cons; [left|by apply Hsub].
Qed.

Lemma Forall_removelast {A} (P : A → Prop) (l : list A) :
  Forall P l → Forall P (removelast l).
Proof.
  induction 1 as [|x l Hx Hl IH]; simpl; [constructor|].
  destruct l; by constructor.
Qed.

Lemma normalize_step_plain (allowAboveRoot : bool) (res : list jsstring)
    (seg : jsstring) :
  Forall plain_segment res → "/"%char ∉ seg → "\"%char ∉ seg →
  Forall plain_segment (normalize_step allowAboveRoot res seg).
Proof.
  intros Hres Hs Hb. unfold normalize_step.
  assert (Hpush : seg ≠ [] → Forall plain_segment (res ++ [seg])).
  { intros Hne. apply Forall_app. split; [done|].
    constructor; [|constructor]. done. }
  destruct (bool_decide_reflect (seg = [])) as [->|Hne]; simpl; [done|].
  destruct (bool_decide (seg = ["."%char])); simpl; [done|].
  destruct (bool_decide (seg = ["."%char; "."%char])); [|by apply Hpush].
  destruct (rev res) as [|last ?].
  - destruct allowAboveRoot; [by apply Hpush|done].
  - destruct (bool_decide (last = ["."%char; "."%char])).
    + destruct allowAboveRoot; [by apply Hpush|done].
    + by apply Forall_removelast.
Qed.

Lemma normalize_segments_plain (allowAboveRoot : bool) (path : jsstring) :
  "\"%char ∉ path →
  Forall plain_segment (normalize_segments allowAboveRoot path).
Proof.
  intros Hb. unfold normalize_segments.
  pose proof (split_on_segments "/" path) as Hsegs.
  assert (Hgen : ∀ res, Forall plain_segment res →
            Forall plain_segment
              (foldl (normalize_step allowAboveRoot) res (split_on "/" path))).
  { induction Hsegs as [|seg segs [Hs Hsub] _ IH]; intros res Hres; simpl;
      [done|].
    apply IH. apply normalize_step_plain; [done|done|].
    intros Hin. apply Hb. by apply Hsub. }
  apply Hgen. constructor.
Qed.

Lemma resolve_segments_plain (cwd p : jsstring) :
  "\"%char ∉ cwd → "\"%char ∉ p → Forall plain_segment (resolve_segments cwd p).
Proof.
  intros Hc Hp. unfold resolve_segments.
  destruct (NodePath.isAbsolute p); apply normalize_segments_plain; [done|].
  intros [?|[?|?]%elem_of_app]%elem_of_app; try done.
  by apply list_elem_of_singleton in H.
Qed.

Lemma drop_common_plain (a b : list jsstring) :
  Forall plain_segment a → Forall plain_segment b →
  Forall plain_segment (drop_common a b).1
  ∧ Forall plain_segment (drop_common a b).2.
Proof.
  intros Ha. revert b. induction Ha as [|x a Hx Ha IH]; intros b Hb; simpl.
  - split; [constructor|done].
  - destruct Hb as [|y b Hy Hb]; simpl.
    + split; [by constructor|constructor].
    + destruct (bool_decide (x = y)); [by apply IH|].
      split; by constructor.
Qed.

Lemma has_double_slash_segment_join (x rest : jsstring) :
  "/"%char ∉ x → startsWith rest "/" = false →
  has_double_slash rest = false →
  has_double_slash (x ++ "/"%char :: rest) = false.
Proof.
  intros Hx Hstart Hrest. induction x as [|a x IH].
  - rewrite app_nil_l. destruct rest as [|c rest]; [done|].
    rewrite has_double_slash_cons2, Hrest.
    rewrite startsWith_slash in Hstart.
    by rewrite (Ascii.eqb_sym c), Hstart.
  - rewrite <- app_comm_cons.
    rewrite has_double_slash_cons_ne; [|intros ->; apply Hx; left].
    apply IH. intros ?. apply Hx. by right.
Qed.

Lemma join_with_plain (l : list jsstring) :
  Forall plain_segment l →
  startsWith (join_with ["/"%char] l) "/" = false
  ∧ has_double_slash (join_with ["/"%char] l) = false
  ∧ "\"%char ∉ join_with ["/"%char] l.
Proof.
  induction 1 as [|x l (Hne & Hs & Hb) Hl IH]; simpl.
  - split; [done|]. split; [done|apply not_elem_of_nil].
  - assert (Hhead : ∀ t, startsWith (x ++ t) "/" = false).
    { intros t. destruct x as [|c x]; [done|]. simpl app.
      rewrite startsWith_slash. apply Ascii.eqb_neq.
      intros <-. apply Hs. left. }
    destruct l as [|y l].
    + split; [|split; [by apply has_double_slash_no_slash|done]].
      specialize (Hhead []). by rewrite app_nil_r in Hhead.
    + destruct IH as (IH1 & IH2 & IH3). split; [apply Hhead|]. split.
      * by apply has_double_slash_segment_join.
      * intros [?|[?|?]%elem_of_cons]%elem_of_app; done.
Qed.

Lemma relative_plain (cwd from to : jsstring) :
  "\"%char ∉ cwd → "\"%char ∉ from → "\"%char ∉ to →
  startsWith (relative cwd from to) "/" = false
  ∧ has_double_slash (relative cwd from to) = false
  ∧ "\"%char ∉ relative cwd from to.
Proof.
  intros Hc Hf Ht. unfold relative.
  pose proof (drop_common_plain _ _ (resolve_segments_plain cwd from Hc Hf)
                (resolve_segments_plain cwd to Hc Ht)) as [Hup Hdown].
  destruct (drop_common _ _) as [up down]. simpl in *.
  apply join_with_plain, Forall_app. split; [|done].
  apply Forall_replicate. split; [done|].
  split; intros [?|[?|?%elem_of_nil]%elem_of_cons]%elem_of_cons; done.
Qed.

Lemma replace_backslashes_none (s : jsstring) :
  "\"%char ∉ s → replace_backslashes s = s.
Proof.
  intros Hs. unfold replace_backslashes.
  induction s as [|c s IH]; [done|]. rewrite fmap_cons. f_equal.
  - destruct (Ascii.eqb c "\") eqn:E; [|done].
    apply Ascii.eqb_eq in E. subst. exfalso. apply Hs. left.
  - apply IH. intros ?. apply Hs. by right.
Qed.

Lemma getRelativeImportPath_no_double_slash (cwd : jsstring)
    (from to : Location) :
  "\"%char ∉ cwd → "\"%char ∉ location_path from →
  "\"%char ∉ location_path to →
  has_double_slash (getRelativeImportPath cwd from to) = false.
Proof.
  intros Hc Hf Ht. unfold getRelativeImportPath.
  destruct (relative_plain cwd (location_path to) (location_path from))
    as (H1 & H2 & H3); [done..|].
  apply convert_no_double_slash; by rewrite replace_backslashes_none.
Qed.

(** C2, as amended: for every input the output of
    [convertPathToRelativeImport] starts with [./] and holds no
    backslash; it holds no [//] when the input, once its backslashes are
    turned into slashes, is a relative path without two adjacent
    separators, which is the case of every path [getRelativeImportPath]
    hands over for locations without backslashes; the function is not
    idempotent: it turns [foo.ts] into [./foo] and its own output
    [./foo] into [././foo]. *)
Theorem convertPathToRelativeImport_shape :
  (∀ p : jsstring,
      startsWith (convertPathToRelativeImport p) "./" = true
      ∧ ("\"%char ∉ convertPathToRelativeImport p)
      ∧ (startsWith (replace_backslashes p) "/" = false →
         has_double_slash (replace_backslashes p) = false →
         has_double_slash (convertPathToRelativeImport p) = false))
  ∧ (∀ (cwd : jsstring) (from to : Location),
       "\"%char ∉ cwd → "\"%char ∉ location_path from →
       "\"%char ∉ location_path to →
       has_double_slash (getRelativeImportPath cwd from to) = false)
  ∧ convertPathToRelativeImport "foo.ts" = "./foo"
  ∧ convertPathToRelativeImport "./foo" = "././foo".
Proof.
  split; [|split; [apply getRelativeImportPath_no_double_slash|by vm_compute]].
  intros p. split.
  { destruct (convert_prefix p) as [rest ->]. apply startsWith_dot_slash. }
  split; [apply convert_no_backslash|apply convert_no_double_slash].
Qed.

Lemma convertPathToRelativeImport_shape_witness :
  has_double_slash
    (convertPathToRelativeImport "..\services\my.service.ts") = false.
Proof.
  apply (proj1 convertPathToRelativeImport_shape
           (js "..\services\my.service.ts")); vm_compute; reflexivity.
Defined.

(** C2 as stated fails: the function applied to its own output [./foo]
    gives something else, and the outputs for [/b.ts] and [a///b.ts]
    hold two adjacent slashes. *)
Lemma convertPathToRelativeImport_counterexample :
  convertPathToRelativeImport (convertPathToRelativeImport "foo.ts")
    ≠ convertPathToRelativeImport "foo.ts"
  ∧ has_double_slash (convertPathToRelativeImport "/b.ts") = true
  ∧ has_double_slash (convertPathToRelativeImport "a///b.ts") = true.
Proof. vm_compute. repeat split; congruence. Qed.

(** ** Import declarations *)

Lemma find_import_Some (p : ImportDeclaration → bool) (sts : list Statement)
    (i : nat) :
  find_import p sts = Some i ↔
  (∃ d, sts !! i = Some (ImportStatement d) ∧ p d = true)
  ∧ (∀ j d, (j < i)%nat → sts !! j = Some (ImportStatement d) → p d = false).
Proof.
  revert i. induction sts as [|st sts IH]; intros i; simpl.
  - split; [done|]. by intros [(d & ? & _) _].
  - assert (Hrest :
      S <$> find_import p sts = Some i ↔
      ∃ i', i = S i' ∧ find_import p sts = Some i').
    { destruct (find_import p sts) as [k|]; simpl; split.
      - intros [= <-]. eauto.
      - intros (i' & -> & [= ->]). done.
      - done.
      - by intros (i' & _ & ?). }
    assert (Hskip : (∀ d, st = ImportStatement d → p d = false) →
      (S <$> find_import p sts = Some i ↔
       (∃ d, (st :: sts) !! i = Some (ImportStatement d) ∧ p d = true)
       ∧ (∀ j d, (j < i)%nat → (st :: sts) !! j = Some (ImportStatement d) →
                 p d = false))).
    { intros Hst. rewrite Hrest. split.
      - intros (i' & -> & Hf). apply IH in Hf as [Hd Hbefore]. split; [done|].
        intros [|j] d Hj; simpl; [intros [= ->]; by apply Hst|].
        apply Hbefore. lia.
      - intros [(d & Hd & Hp) Hbefore]. destruct i as [|i'].
        + simpl in Hd. injection Hd as ->. rewrite (Hst d) in Hp; done.
        + exists i'. split; [done|]. apply IH. split; [by exists d|].
          intros j d' Hj Hl. apply (Hbefore (S j)); [lia|done]. }
    destruct st as [d0| | |]; try (apply Hskip; intros; discriminate).
    destruct (p d0) eqn:Hp0.
    + split.
      * intros [= <-]. split; [by exists d0|]. intros; lia.
      * intros [_ Hbefore]. destruct i as [|i']; [done|].
        rewrite (Hbefore 0%nat d0) in Hp0; [done|lia|done].
    + apply Hskip. by intros d [= <-].
Qed.

Lemma getImportDeclaration_Some (sf : SourceFile)
    (p : ImportDeclaration → bool) (d : ImportDeclaration) :
  getImportDeclaration sf p = Some d ↔
  ∃ i, find_import p (statements sf) = Some i
       ∧ statements sf !! i = Some (ImportStatement d).
Proof.
  unfold getImportDeclaration, import_at. split.
  - destruct (find_import p (statements sf)) as [i|] eqn:Hf; simpl; [|done].
    destruct (statements sf !! i) as [[d'| | |]|] eqn:Hl; try done.
    intros [= ->]. by exists i.
  - intros (i & -> & Hl). simpl. by rewrite Hl.
Qed.

Lemma find_import_None (p : ImportDeclaration → bool) (sts : list Statement) :
  find_import p sts = None ↔
  ∀ d, ImportStatement d ∈ sts → p d = false.
Proof.
  induction sts as [|st sts IH]; simpl.
  - split; [|done]. by intros _ d ?%elem_of_nil.
  - assert (Hrest : S <$> find_import p sts = None ↔ find_import p sts = None).
    { by destruct (find_import p sts). }
    assert (Hskip : (∀ d, st ≠ ImportStatement d) →
      (S <$> find_import p sts = None ↔
       ∀ d, ImportStatement d ∈ st :: sts → p d = false)).
    { intros Hst. rewrite Hrest, IH. split.
      - intros H d [Heq|Hd]%elem_of_cons; [by destruct (Hst d)|by apply H].
      - intros H d Hd. apply H. by right. }
    destruct st as [d0| | |]; try (apply Hskip; intros; discriminate).
    destruct (p d0) eqn:Hp0.
    + split; [done|]. intros H. rewrite (H d0) in Hp0; [done|left].
    + rewrite Hrest, IH. split.
      * intros H d [[= ->]|Hd]%elem_of_cons; [done|by apply H].
      * intros H d Hd. apply H. by right.
Qed.


(** Updating the found declaration without changing what the search
    looks at leaves it the declaration that is found. *)
Lemma find_import_alter (p : ImportDeclaration → bool)
    (f : ImportDeclaration → ImportDeclaration) (sts : list Statement)
    (i : nat) :
  (∀ d, p (f d) = p d) →
  find_import p sts = Some i →
  find_import p (alter (update_import f) i sts) = Some i.
Proof.
  intros Hf. rewrite !find_import_Some. intros [(d & Hd & Hp) Hbefore]. split.
  - exists (f d). rewrite list_lookup_alter_eq, Hd. simpl. by rewrite Hf.
  - intros j d' Hj. rewrite list_lookup_alter_ne by lia. by apply Hbefore.
Qed.


(** *** The loop over the requested names *)

Lemma with_named_imports_same (d : ImportDeclaration) :
  with_named_imports (namedImports d) d = d.
Proof. by destruct d. Qed.

(** Where a declaration can take named imports, [addNamedImport]
    appends the name. *)
Lemma addNamedImport_appends (n : jsstring) (d : ImportDeclaration) :
  namedImports d ≠ [] ∨ namespaceImport d = None →
  addNamedImport n d = inl (with_named_imports (namedImports d ++ [n]) d).
Proof.
  unfold addNamedImport, with_named_imports.
  destruct (namedImports d) as [|x l], (namespaceImport d) as [t|];
    intros [H|H]; done.
Qed.

Lemma add_missing_named_imports_appends (existing requested : list jsstring)
    (d : ImportDeclaration) :
  namedImports d ≠ [] ∨ namespaceImport d = None →
  add_missing_named_imports existing requested d
  = (with_named_imports
       (namedImports d ++ filter (fun n => n ∉ existing) requested) d,
     Returned tt).
Proof.
  revert d. induction requested as [|n requested IH]; intros d Hd; simpl.
  - by rewrite app_nil_r, with_named_imports_same.
  - rewrite filter_cons. destruct (decide (n ∈ existing)) as [Hin|Hnin].
    + rewrite bool_decide_eq_true_2 by done.
      rewrite decide_False by (intros H; by apply H). by apply IH.
    + rewrite bool_decide_eq_false_2 by done.
      rewrite decide_True by done.
      rewrite (addNamedImport_appends n d Hd), IH.
      * unfold with_named_imports. simpl. by rewrite <- app_assoc.
      * left. simpl. by destruct (namedImports d).
Qed.

(** Next to a namespace import no first named import can be added: the
    loop leaves the declaration as it is, and throws at the first name
    that is new. *)
Lemma add_missing_named_imports_blocked (existing requested : list jsstring)
    (d : ImportDeclaration) :
  namedImports d = [] → is_Some (namespaceImport d) →
  (add_missing_named_imports existing requested d).1 = d
  ∧ (filter (fun n => n ∉ existing) requested = [] →
     (add_missing_named_imports existing requested d).2 = Returned tt)
  ∧ (filter (fun n => n ∉ existing) requested ≠ [] →
     ∃ message,
       (add_missing_named_imports existing requested d).2 = Thrown message).
Proof.
  intros Hnamed [t Hns].
  induction requested as [|n requested IH]; simpl; [done|].
  rewrite filter_cons. destruct (decide (n ∈ existing)) as [Hin|Hnin].
  - rewrite bool_decide_eq_true_2 by done.
    by rewrite decide_False by (intros H; by apply H).
  - rewrite bool_decide_eq_false_2 by done.
    rewrite decide_True by done.
    unfold addNamedImport. rewrite Hnamed, Hns. simpl.
    split; [done|]. split; [done|]. eauto.
Qed.


(** The loop touches the named imports only, and only by adding. *)
Lemma add_missing_named_imports_frame (existing requested : list jsstring)
    (d : ImportDeclaration) :
  let d' := (add_missing_named_imports existing requested d).1 in
  moduleSpecifierValue d' = moduleSpecifierValue d
  ∧ defaultImport d' = defaultImport d
  ∧ namespaceImport d' = namespaceImport d.
Proof.
  destruct (decide (namedImports d ≠ [] ∨ namespaceImport d = None))
    as [Hd|Hd].
  - by rewrite add_missing_named_imports_appends.
  - destruct (add_missing_named_imports_blocked existing requested d)
      as (-> & _); [| |done].
    + destruct (namedImports d); [done|]. destruct Hd. by left.
    + destruct (namespaceImport d); [eauto|]. destruct Hd. by right.
Qed.

(** *** The merge into the declaration that was found *)

(** What the merge does, case by case: next to named imports a
    namespace import that is asked for and would be set makes the merge
    throw at once; otherwise the namespace import is set when it is
    asked for and the declaration has none and no default import, and
    the names follow. *)
Lemma merge_into_existing_cases (options : ImportOptions)
    (d : ImportDeclaration) :
  let wanted :=
    truthy_string (opt_namespaceImport options)
    && negb (bool_decide (is_Some (namespaceImport d)))
    && negb (bool_decide (is_Some (defaultImport d))) in
  (wanted = true ∧ namedImports d ≠ []
   ∧ ∃ message, merge_into_existing options d = (d, Thrown message))
  ∨ (wanted = true ∧ namedImports d = []
     ∧ namespaceImport d = None ∧ defaultImport d = None
     ∧ (merge_into_existing options d).1
       = with_namespace_import (default [] (opt_namespaceImport options)) d
     ∧ (default [] (opt_namedImports options) = [] →
        (merge_into_existing options d).2 = Returned tt))
  ∨ (wanted = false
     ∧ merge_into_existing options d
       = match opt_namedImports options with
         | Some requested =>
             add_missing_named_imports (namedImports d) requested d
         | None => (d, Returned tt)
         end).
Proof.
  intros wanted. unfold merge_into_existing. fold wanted.
  destruct wanted eqn:Hw; [|by right; right].
  assert (Hns : namespaceImport d = None ∧ defaultImport d = None).
  { subst wanted. apply andb_true_iff in Hw as [[_ H1]%andb_true_iff H2].
    apply negb_true_iff, bool_decide_eq_false in H1, H2.
    split.
    - destruct (namespaceImport d); [|done]. destruct H1. eauto.
    - destruct (defaultImport d); [|done]. destruct H2. eauto. }
  destruct Hns as [Hns Hdef].
  unfold setNamespaceImport. rewrite Hns.
  destruct (namedImports d) as [|x l] eqn:Hnamed.
  - right; left. split; [done|]. split; [done|]. split; [done|].
    split; [done|].
    set (d1 := mkImportDeclaration _ _ _ _).
    assert (Hd1 : d1 = with_namespace_import
                         (default [] (opt_namespaceImport options)) d).
    { subst d1. unfold with_namespace_import. by rewrite Hnamed. }
    destruct (opt_namedImports options) as [requested|]; simpl.
    + destruct (add_missing_named_imports_blocked [] requested d1)
        as (H1 & H2 & _); [done|by eexists|].
      rewrite H1. split; [done|]. intros ->. by apply H2.
    + done.
  - left. split; [done|]. split; [done|]. eauto.
Qed.

(** The merge never touches the module specifier or the default import,
    and it changes the namespace import only by setting the requested
    one on a declaration that has no import at all. *)
Lemma merge_into_existing_frame (options : ImportOptions)
    (d : ImportDeclaration) :
  let d' := (merge_into_existing options d).1 in
  moduleSpecifierValue d' = moduleSpecifierValue d
  ∧ defaultImport d' = defaultImport d
  ∧ (namespaceImport d' = namespaceImport d
     ∨ (namespaceImport d = None ∧ defaultImport d = None
        ∧ namedImports d = []
        ∧ truthy_string (opt_namespaceImport options) = true
        ∧ namespaceImport d' = opt_namespaceImport options)).
Proof.
  destruct (merge_into_existing_cases options d)
    as [(_ & _ & m & ->)|[(Hw & Hnamed & Hns & Hdef & -> & _)|(_ & ->)]].
  - simpl. split; [done|]. split; [done|]. by left.
  - simpl. split; [done|]. split; [done|]. right.
    apply andb_true_iff in Hw as [[Ht _]%andb_true_iff _].
    repeat (split; [done|]).
    by destruct (opt_namespaceImport options) as [[|]|].
  - destruct (opt_namedImports options) as [requested|]; simpl.
    + destruct (add_missing_named_imports_frame (namedImports d) requested d)
        as (-> & -> & ->). split; [done|]. split; [done|]. by left.
    + split; [done|]. split; [done|]. by left.
Qed.



(** *** The branch that merges *)

(** What a call does when the search finds a declaration. *)
Lemma addImportsToFile_found_at (cwd : jsstring) (sf : SourceFile)
    (options : ImportOptions) (i : nat) (existing : ImportDeclaration) :
  find_import
    (fun d => strict_equal_specifier (moduleSpecifierValue d)
                                     (opt_moduleSpecifier options))
    (statements sf) = Some i →
  statements sf !! i = Some (ImportStatement existing) →
  addImportsToFile cwd sf options
  = (mkSourceFile (filePath sf)
       (alter (update_import (fun d => (merge_into_existing options d).1)) i
              (statements sf)),
     (merge_into_existing options existing).2).
Proof.
  intros Hfind Hlook. unfold addImportsToFile, import_at.
  by rewrite Hfind, Hlook.
Qed.


Lemma addImportsToFile_found (cwd : jsstring) (sf : SourceFile)
    (m : jsstring) (existing : ImportDeclaration)
    (named : option (list jsstring)) (ns : option jsstring)
    (order : option nat) :
  getImportDeclaration sf (has_specifier m) = Some existing →
  let options := mkImportOptions (SpecifierString m) named ns order in
  ∃ i, find_import (has_specifier m) (statements sf) = Some i
       ∧ statements sf !! i = Some (ImportStatement existing)
       ∧ moduleSpecifierValue existing = m
       ∧ addImportsToFile cwd sf options
         = (mkSourceFile (filePath sf)
              (alter (update_import
                        (fun d => (merge_into_existing options d).1)) i
                     (statements sf)),
            (merge_into_existing options existing).2)
       ∧ getImportDeclaration (addImportsToFile cwd sf options).1
                              (has_specifier m)
         = Some (merge_into_existing options existing).1.
Proof.
  intros Hex options.
  apply getImportDeclaration_Some in Hex as (i & Hfind & Hlook).
  exists i. split; [done|]. split; [done|].
  assert (Hspec : moduleSpecifierValue existing = m).
  { apply find_import_Some in Hfind as [(d & Hd' & Hp) _].
    rewrite Hlook in Hd'. injection Hd' as <-.
    unfold has_specifier in Hp. simpl in Hp. by apply bool_decide_eq_true in Hp. }
  split; [done|].
  pose proof (addImportsToFile_found_at cwd sf options i existing Hfind Hlook)
    as Hcall.
  split; [done|]. rewrite Hcall.
  apply getImportDeclaration_Some. exists i. simpl. split.
  - apply (find_import_alter (has_specifier m)); [|done].
    intros d. unfold has_specifier.
    by destruct (merge_into_existing_frame options d) as (-> & _ & _).
  - by rewrite list_lookup_alter_eq, Hlook.
Qed.




(** *** The branch that adds a declaration *)

Lemma insert_index_loop_no_import (i insertIndex : nat)
    (children : list Statement) :
  Forall (fun st => is_import st = false) children →
  insert_index_loop i insertIndex false children = insertIndex.
Proof.
  intros H. revert i. induction H as [|st children Hst _ IH]; intros i; simpl;
    [done|].
  by rewrite Hst.
Qed.

(** With an import declaration in the file, the place is right after
    the last one. *)
Lemma insert_index_loop_after_last (i insertIndex : nat) (w : bool)
    (before after : list Statement) (d : ImportDeclaration) :
  Forall (fun st => is_import st = false) after →
  insert_index_loop i insertIndex w (before ++ ImportStatement d :: after)
  = S (i + length before).
Proof.
  intros Hafter. revert i insertIndex w.
  induction before as [|st before IH]; intros i insertIndex w; simpl.
  - rewrite andb_false_r, insert_index_loop_no_import by done. lia.
  - destruct (w && is_block_comment st); rewrite IH; lia.
Qed.

Lemma import_insert_index_after_last (before after : list Statement)
    (d : ImportDeclaration) :
  Forall (fun st => is_import st = false) after →
  import_insert_index (before ++ ImportStatement d :: after)
  = S (length before).
Proof. intros H. unfold import_insert_index. by rewrite insert_index_loop_after_last. Qed.

(** Without import declarations and without a block comment at its
    start, the place is the start of the file. *)
Lemma import_insert_index_first (sts : list Statement) :
  Forall (fun st => is_import st = false) sts →
  head (is_block_comment <$> sts) ≠ Some true →
  import_insert_index sts = 0%nat.
Proof.
  intros Hsts Hhead. unfold import_insert_index.
  destruct Hsts as [|st sts Hst Hsts]; [done|]. simpl in *.
  destruct (is_block_comment st); [done|].
  by rewrite Hst, insert_index_loop_no_import.
Qed.

Lemma insert_index_loop_le (i insertIndex : nat) (w : bool)
    (children : list Statement) :
  (insertIndex ≤ i)%nat →
  (insert_index_loop i insertIndex w children ≤ i + length children)%nat.
Proof.
  revert i insertIndex w.
  induction children as [|st children IH]; intros i insertIndex w Hle; simpl;
    [lia|].
  destruct (w && is_block_comment st).
  - specialize (IH (S i) (S i) true). lia.
  - destruct (is_import st).
    + specialize (IH (S i) (S i) false). lia.
    + specialize (IH (S i) insertIndex false). lia.
Qed.

Lemma import_insert_index_le (sts : list Statement) :
  (import_insert_index sts ≤ length sts)%nat.
Proof.
  unfold import_insert_index.
  pose proof (insert_index_loop_le 0 0 true sts). lia.
Qed.

(** A structure that ts-morph accepts is inserted, and the file is the
    former one with the declaration put in. *)
Lemma addImportDeclaration_accepted (sf : SourceFile) (d : ImportDeclaration) :
  namespaceImport d = None ∨ namedImports d = [] →
  addImportDeclaration sf d
  = inl (mkSourceFile (filePath sf)
           (take (import_insert_index (statements sf)) (statements sf)
              ++ ImportStatement d
              :: drop (import_insert_index (statements sf)) (statements sf)),
         import_insert_index (statements sf)).
Proof.
  unfold addImportDeclaration.
  destruct (namedImports d) as [|x l], (namespaceImport d) as [t|];
    intros [H|H]; done.
Qed.

Lemma addImportDeclaration_rejected (sf : SourceFile) (d : ImportDeclaration) :
  is_Some (namespaceImport d) → namedImports d ≠ [] →
  ∃ message, addImportDeclaration sf d = inr message.
Proof.
  unfold addImportDeclaration. intros [t ->] Hnamed.
  destruct (namedImports d); [done|]. eauto.
Qed.

Lemma import_structure_accepted (m : jsstring) (options : ImportOptions) :
  accepted_structure options = true →
  namespaceImport (import_structure m options) = None
  ∨ namedImports (import_structure m options) = [].
Proof.
  unfold accepted_structure, import_structure. simpl.
  intros [H|H]%orb_true_iff.
  - left. apply negb_true_iff in H. by rewrite H.
  - right. by apply bool_decide_eq_true in H.
Qed.

Lemma import_structure_rejected (m : jsstring) (options : ImportOptions) :
  accepted_structure options = false →
  is_Some (namespaceImport (import_structure m options))
  ∧ namedImports (import_structure m options) ≠ [].
Proof.
  unfold accepted_structure, import_structure. simpl.
  intros [H1 H2]%orb_false_iff.
  apply negb_false_iff in H1. apply bool_decide_eq_false in H2.
  rewrite H1. split; [|done].
  destruct (opt_namespaceImport options); [eauto|done].
Qed.

Lemma setOrder_Permutation (sf sf' : SourceFile) (i order : nat) :
  setOrder sf i order = inl sf' →
  statements sf' ≡ₚ statements sf ∧ filePath sf' = filePath sf.
Proof.
  unfold setOrder. destruct (statements sf !! i) as [st|] eqn:Hi;
    [|by intros [= <-]].
  destruct (length (statements sf) <=? order)%nat; [done|].
  intros [= <-]. simpl. split; [|done].
  rewrite <- Permutation_middle, take_drop.
  symmetry. by apply delete_Permutation.
Qed.

Lemma getImportDeclarations_Permutation (sf sf' : SourceFile) :
  statements sf ≡ₚ statements sf' →
  getImportDeclarations sf ≡ₚ getImportDeclarations sf'.
Proof. unfold getImportDeclarations. apply Permutation_flat_map. Qed.

(** A call that finds no declaration either is rejected and leaves the
    file as it was, or adds exactly one declaration, under the resolved
    specifier. *)
Lemma addImportsToFile_new_statements (cwd : jsstring) (sf : SourceFile)
    (options : ImportOptions) :
  find_import
    (fun d => strict_equal_specifier (moduleSpecifierValue d)
                                     (opt_moduleSpecifier options))
    (statements sf) = None →
  let new :=
    import_structure
      (getModuleSpecifierString cwd (opt_moduleSpecifier options) sf)
      options in
  filePath (addImportsToFile cwd sf options).1 = filePath sf
  ∧ (accepted_structure options = true →
     statements (addImportsToFile cwd sf options).1
     ≡ₚ ImportStatement new :: statements sf)
  ∧ (accepted_structure options = false →
     (addImportsToFile cwd sf options).1 = sf).
Proof.
  intros Hnone new. unfold addImportsToFile. rewrite Hnone. fold new.
  destruct (accepted_structure options) eqn:Hacc.
  - rewrite (addImportDeclaration_accepted sf new)
      by (by apply import_structure_accepted).
    set (sf1 := mkSourceFile _ _).
    assert (H1 : statements sf1 ≡ₚ ImportStatement new :: statements sf).
    { subst sf1. simpl. rewrite <- Permutation_middle. by rewrite take_drop. }
    destruct (opt_order options) as [order|]; [|by split].
    destruct (setOrder sf1 _ order) as [sf2|msg] eqn:Hset; [|by split].
    apply setOrder_Permutation in Hset as [Hp Hpath]. simpl.
    split; [by rewrite Hpath|]. split; [|done]. intros _. by rewrite Hp.
  - destruct (import_structure_rejected
                (getModuleSpecifierString cwd (opt_moduleSpecifier options) sf)
                options Hacc) as [H1 H2].
    destruct (addImportDeclaration_rejected sf new H1 H2) as [msg ->].
    by split.
Qed.

(** X10: with a source file as module specifier the search of
    [addImportsToFile] never succeeds, so every call whose structure
    ts-morph accepts (no named imports next to a namespace import) adds
    one more declaration under the resolved specifier. *)
Lemma addImportsToFile_source_file_always_adds (cwd : jsstring)
    (sf target : SourceFile) (named : option (list jsstring))
    (ns : option jsstring) (order : option nat) :
  let options := mkImportOptions (SpecifierSourceFile target) named ns order in
  let resolved := getModuleSpecifierString cwd (SpecifierSourceFile target) sf in
  plain_request cwd sf options = true →
  accepted_structure options = true →
  length (imports_of resolved (addImportsToFile cwd sf options).1)
  = S (length (imports_of resolved sf)).
Proof.
  intros options resolved _ Hacc.
  destruct (addImportsToFile_new_statements cwd sf options) as (_ & Hperm & _).
  { by apply find_import_None. }
  unfold imports_of, getImportDeclarations.
  rewrite (Permutation_flat_map _ (Hperm Hacc)).
  simpl. by rewrite filter_cons_True.
Qed.

Lemma addImportsToFile_source_file_always_adds_witness :
  length (imports_of (js "./../service")
            (addImportsToFile (js "/project") pluginFile serviceImport).1)
  = 1%nat.
Proof.
  exact (addImportsToFile_source_file_always_adds (js "/project") pluginFile
           serviceFile (Some [js "MyService"]) None None eq_refl eq_refl).
Defined.


(** C1, at the failing input: the plugin file imports from the service
    file, given as a source file.  The specifier resolves to
    [./../service]; after one call the file has one import declaration
    with that specifier, after a second call with the same arguments it
    has two. *)
Theorem addImportsToFile_twice_source_file_specifier :
  let once := (addImportsToFile (js "/project") pluginFile serviceImport).1 in
  let twice := (addImportsToFile (js "/project") once serviceImport).1 in
  getModuleSpecifierString (js "/project") (SpecifierSourceFile serviceFile)
                           pluginFile
  = js "./../service"
  ∧ length (imports_of (js "./../service") once) = 1%nat
  ∧ length (imports_of (js "./../service") twice) = 2%nat.
Proof. vm_compute. done. Qed.

(** ** The configuration locator *)

Lemma find_first {A} (p : A → bool) (before after : list A) (x : A) :
  Forall (fun y => p y = false) before → p x = true →
  List.find p (before ++ x :: after) = Some x.
Proof.
  intros Hb Hx. induction Hb as [|y before Hy _ IH]; simpl.
  - by rewrite Hx.
  - by rewrite Hy.
Qed.

Lemma find_none_iff {A} (p : A → bool) (l : list A) :
  List.find p l = None ↔ Forall (fun y => p y = false) l.
Proof.
  induction l as [|y l IH]; simpl.
  - split; [constructor|done].
  - destruct (p y) eqn:Hy.
    + split; [done|]. intros H. inversion H; congruence.
    + rewrite IH. split; [by constructor|]. intros H. by inversion H.
Qed.

Lemma isVendureConfigSourceFile_candidate (checkFileName : bool)
    (sf : SourceFile) :
  isVendureConfigSourceFile checkFileName sf = true
  ↔ is_candidate checkFileName sf.
Proof.
  unfold isVendureConfigSourceFile, is_candidate.
  rewrite andb_true_iff.
  assert (H1 : (if checkFileName
                then endsWith (filePath sf) "vendure-config.ts" else true) = true
               ↔ (checkFileName = true →
                  endsWith (filePath sf) "vendure-config.ts" = true)).
  { destruct checkFileName; [|done]. split; [by intros ? _|by intros H; apply H]. }
  assert (H2 : is_some (List.find isVendureConfigVariableDeclaration
                                  (getVariableDeclarations sf)) = true
               ↔ ∃ v, v ∈ getVariableDeclarations sf
                      ∧ typeText v = js "VendureConfig").
  { destruct (List.find _ _) as [v|] eqn:Hf; simpl.
    - split; [intros _|done]. apply find_some in Hf as [Hin Hv].
      exists v. split; [by apply list_elem_of_In|].
      by apply bool_decide_eq_true in Hv.
    - split; [done|]. intros (v & Hin & Hv).
      apply find_none_iff in Hf. rewrite Forall_forall in Hf.
      specialize (Hf v Hin). unfold isVendureConfigVariableDeclaration in Hf.
      by rewrite bool_decide_eq_true_2 in Hf. }
  by rewrite H1, H2.
Qed.

(** C5: [getVendureConfig] returns [undefined] (and leaves the project
    as it is) when the project has no [src] directory and no variable
    declared with the type [VendureConfig] in any file; otherwise, when
    a loaded file is a candidate (its path ends with [vendure-config.ts]
    when [checkFileName] is set, as by default, and it has a variable of
    type [VendureConfig]), the result comes from the first candidate in
    file order alone: it is the object-literal child of the first such
    variable of that file, whatever other candidates follow. *)
Theorem getVendureConfig_first_candidate :
  ∀ (cwd : jsstring) (fs : FileSystem) (project : Project)
    (checkFileNameOption : option bool),
    let checkFileName := default true checkFileNameOption in
    (getDirectory cwd project "src" = None →
     (∀ sf v, sf ∈ sourceFiles project → v ∈ getVariableDeclarations sf →
              typeText v ≠ js "VendureConfig") →
     getVendureConfig cwd fs project checkFileNameOption
     = Returned (project, None))
    ∧ (∀ before sf after vbefore v vafter,
         sourceFiles project = before ++ sf :: after →
         Forall (fun f => ¬ is_candidate checkFileName f) before →
         (checkFileName = true →
          endsWith (filePath sf) "vendure-config.ts" = true) →
         getVariableDeclarations sf = vbefore ++ v :: vafter →
         Forall (fun w => typeText w ≠ js "VendureConfig") vbefore →
         typeText v = js "VendureConfig" →
         getVendureConfig cwd fs project checkFileNameOption
         = Returned (project,
                     List.find isObjectLiteralExpression (children v))).
Proof.
  intros cwd fs project checkFileNameOption checkFileName. split.
  - intros Hsrc Hnone. unfold getVendureConfig. fold checkFileName.
    assert (Hfind : getVendureConfigSourceFile checkFileName (sourceFiles project)
                    = None).
    { apply find_none_iff, Forall_forall. intros sf Hsf.
      destruct (isVendureConfigSourceFile checkFileName sf) eqn:Hc; [|done].
      apply isVendureConfigSourceFile_candidate in Hc as [_ (v & Hv & Ht)].
      destruct (Hnone sf v Hsf Hv Ht). }
    rewrite Hfind. unfold findAndAddVendureConfigToProject. rewrite Hsrc.
    by rewrite Hfind.
  - intros before sf after vbefore v vafter Hfiles Hbefore Hname Hdecls Hvb Hv.
    unfold getVendureConfig. fold checkFileName.
    assert (Hfind : getVendureConfigSourceFile checkFileName (sourceFiles project)
                    = Some sf).
    { unfold getVendureConfigSourceFile. rewrite Hfiles. apply find_first.
      - eapply Forall_impl; [exact Hbefore|]. intros f Hf. simpl in Hf.
        destruct (isVendureConfigSourceFile checkFileName f) eqn:Hc; [|done].
        by apply isVendureConfigSourceFile_candidate in Hc.
      - apply isVendureConfigSourceFile_candidate. split; [done|].
        exists v. split; [|done]. rewrite Hdecls. apply elem_of_app. right. left. }
    rewrite Hfind. do 2 f_equal. unfold config_initializer. simpl.
    rewrite Hdecls, (find_first _ vbefore vafter v); [done| |].
    + eapply Forall_impl; [exact Hvb|]. intros w Hw. simpl in Hw.
      unfold isVendureConfigVariableDeclaration. by apply bool_decide_eq_false.
    + unfold isVendureConfigVariableDeclaration. by apply bool_decide_eq_true.
Qed.

Lemma getVendureConfig_first_candidate_witness :
  getVendureConfig (js "/project") noDisk
    (mkProject [indexFile; configFile; otherConfigFile] [] pathOrder) None
  = Returned (mkProject [indexFile; configFile; otherConfigFile] [] pathOrder,
              Some (ObjectLiteralExpression (js "{ apiOptions: {} }"))).
Proof.
  apply (proj2 (getVendureConfig_first_candidate (js "/project") noDisk
                  (mkProject [indexFile; configFile; otherConfigFile] [] pathOrder) None)
           [indexFile] configFile [otherConfigFile] [] configDeclaration []).
  - reflexivity.
  - constructor; [|constructor]. intros [Hname _].
    specialize (Hname eq_refl). vm_compute in Hname. discriminate.
  - intros _. vm_compute. reflexivity.
  - reflexivity.
  - constructor.
  - reflexivity.
Defined.

(** The one-time fallback: nothing loaded matches, the [src] directory
    of the project lists [vendure-config.ts], and the file is added and
    searched. *)
Example getVendureConfig_fallback :
  getVendureConfig (js "/project") srcDisk
    (mkProject [pluginFile] [js "/project/src"] pathOrder) None
  = Returned (mkProject [pluginFile; configFile] [js "/project/src"] pathOrder,
              Some (ObjectLiteralExpression (js "{ apiOptions: {} }"))).
Proof. vm_compute. reflexivity. Qed.

(** ** The project loader *)

(** C7: in a working directory without [tsconfig.json],
    [getTsMorphProject] throws at once: the call ends in the error
    [No tsconfig.json found in current directory] after the single
    existence test, so no file is read and no project is built. *)
Theorem getTsMorphProject_without_tsconfig :
  ∀ (ManipulationSettings : Type) (defaults : ManipulationSettings)
    (cwd : jsstring) (fs : FileSystem)
    (options : ProjectOptions ManipulationSettings),
    existsSync fs (NodePath.join cwd "tsconfig.json") = false →
    getTsMorphProject ManipulationSettings defaults cwd fs options
    = (Thrown (js "No tsconfig.json found in current directory"),
       [EvExistsSync (NodePath.join cwd "tsconfig.json")])
    ∧ ∀ e, e ∈ (getTsMorphProject ManipulationSettings defaults cwd fs options).2 →
           is_read_or_construct e = false.
Proof.
  intros MS defaults cwd fs options Hmissing.
  assert (Hcall : getTsMorphProject MS defaults cwd fs options
                  = (Thrown (js "No tsconfig.json found in current directory"),
                     [EvExistsSync (NodePath.join cwd "tsconfig.json")])).
  { unfold getTsMorphProject. by rewrite Hmissing. }
  split; [done|]. rewrite Hcall. simpl.
  by intros e ->%list_elem_of_singleton.
Qed.

Lemma getTsMorphProject_without_tsconfig_witness :
  getTsMorphProject unit tt (js "/home/dev/shop") noDisk
    (emptyProjectOptions unit)
  = (Thrown (js "No tsconfig.json found in current directory"),
     [EvExistsSync (js "/home/dev/shop/tsconfig.json")]).
Proof.
  exact (proj1 (getTsMorphProject_without_tsconfig unit tt (js "/home/dev/shop")
                  noDisk (emptyProjectOptions unit) eq_refl)).
Defined.

(** With the configuration file in place the project is built from it,
    and a key given by the caller replaces the loader's. *)
Lemma getTsMorphProject_with_tsconfig (ManipulationSettings : Type)
    (defaults : ManipulationSettings) (cwd : jsstring) (fs : FileSystem)
    (options : ProjectOptions ManipulationSettings) :
  existsSync fs (NodePath.join cwd "tsconfig.json") = true →
  ∃ built,
    (getTsMorphProject ManipulationSettings defaults cwd fs options).1
    = Returned built
    ∧ tsConfigFilePath _ built
      = or_else (tsConfigFilePath _ options)
                (Given (Some (NodePath.join cwd "tsconfig.json")))
    ∧ manipulationSettings _ built
      = or_else (manipulationSettings _ options) (Given (Some defaults)).
Proof.
  intros Hexists. unfold getTsMorphProject. rewrite Hexists. simpl.
  eexists. split; [done|]. done.
Qed.

(** ** The template instantiator *)

(** C8: when the template at [templatePath] reads as [content],
    [createFile] returns the in-memory file at the temporary prefix
    joined with [templatePath], with exactly that text, and the project
    holds it there, its other files untouched; a second call, the
    template now reading [content'], returns the file with text
    [content'], and the project is the original one with only
    [content'] at that path. *)
Theorem createFile_creates_then_overwrites :
  ∀ (fs : FileSystem) (project : gmap jsstring jsstring)
    (templatePath content : jsstring),
    readFileSync fs templatePath = Some content →
    let target := NodePath.join tempPrefix templatePath in
    ∃ project',
      (createFile fs project templatePath).1
      = Returned (project', mkVirtualFile target content)
      ∧ project' !! target = Some content
      ∧ (∀ other, other ≠ target → project' !! other = project !! other)
      ∧ ∀ (fs' : FileSystem) (content' : jsstring),
          readFileSync fs' templatePath = Some content' →
          ∃ project'',
            (createFile fs' project' templatePath).1
            = Returned (project'', mkVirtualFile target content')
            ∧ project'' !! target = Some content'
            ∧ project'' = <[target := content']> project.
Proof.
  intros fs project templatePath content Hread target.
  assert (Hcreate : ∀ (fs0 : FileSystem) (p : gmap jsstring jsstring) c,
    readFileSync fs0 templatePath = Some c →
    (createFile fs0 p templatePath).1
    = Returned (<[target := c]> p, mkVirtualFile target c)).
  { intros fs0 p c Hr. unfold createFile, createSourceFile. rewrite Hr.
    fold target. by destruct (p !! target). }
  exists (<[target := content]> project). split; [by apply Hcreate|].
  split; [apply lookup_insert_eq|].
  split; [intros other Hne; by apply lookup_insert_ne|].
  intros fs' content' Hread'.
  exists (<[target := content']> (<[target := content]> project)).
  split; [by apply Hcreate|].
  split; [apply lookup_insert_eq|apply insert_insert_eq].
Qed.

Lemma createFile_creates_then_overwrites_witness :
  ∃ project',
    (createFile (templateDisk (js "export class Foo {}")) ∅
                (js "templates/plugin.ts.template")).1
    = Returned (project',
                mkVirtualFile
                  (js "/.vendure-cli-temp/templates/plugin.ts.template")
                  (js "export class Foo {}"))
    ∧ project' !! js "/.vendure-cli-temp/templates/plugin.ts.template"
      = Some (js "export class Foo {}").
Proof.
  destruct (createFile_creates_then_overwrites
              (templateDisk (js "export class Foo {}")) ∅
              (js "templates/plugin.ts.template") (js "export class Foo {}")
              eq_refl)
    as (project' & Hcall & Hlook & _).
  exists project'. split; [exact Hcall|exact Hlook].
Defined.

(** ** The date pipe *)

Lemma getOptionsForFormat_unrecognized (f : jsstring) :
  f ∉ known_formats → getOptionsForFormat f = None.
Proof.
  intros Hf. unfold getOptionsForFormat.
  repeat (rewrite bool_decide_eq_false_2;
          [|intros ->; apply Hf; unfold known_formats; set_solver]).
  done.
Qed.

(** C4, as amended: [transform] returns [undefined] when no locale is
    available (no string override and no stored locale); with a locale
    and a date or a string as value it returns what
    [Intl.DateTimeFormat] makes of the date for that locale and the
    options of the format name; the names [medium], [mediumTime],
    [longDate] and [short] have the fixed option sets of the source; any
    other name has no option set, and the date is formatted all the
    same, with no options handed to the formatter. *)
Theorem transform_formats_with_locale :
  ∀ (this : Pipe) (value format override : JsValue),
    (available_locale this override = None →
     transform this value [format; override] = Undefined)
    ∧ (∀ activeLocale date,
         available_locale this override = Some activeLocale →
         date_of value = Some date →
         transform this value [format; override]
         = IntlFormatted activeLocale
                         (getOptionsForFormat (format_name format)) date)
    ∧ getOptionsForFormat "medium"
      = Some (mkDateTimeFormatOptions (Some (js "short")) (Some (js "numeric"))
                (Some (js "numeric")) (Some (js "numeric"))
                (Some (js "numeric")) (Some (js "numeric")) (Some true))
    ∧ getOptionsForFormat "mediumTime"
      = Some (mkDateTimeFormatOptions None None None (Some (js "numeric"))
                (Some (js "numeric")) (Some (js "numeric")) (Some true))
    ∧ getOptionsForFormat "longDate"
      = Some (mkDateTimeFormatOptions (Some (js "long")) (Some (js "numeric"))
                (Some (js "numeric")) None None None None)
    ∧ getOptionsForFormat "short"
      = Some (mkDateTimeFormatOptions (Some (js "numeric")) (Some (js "2-digit"))
                (Some (js "numeric")) (Some (js "numeric"))
                (Some (js "numeric")) None (Some true))
    ∧ (∀ f, f ∉ known_formats →
            getOptionsForFormat f = None
            ∧ ∀ activeLocale date,
                available_locale this override = Some activeLocale →
                date_of value = Some date →
                transform this value [JsString f; override]
                = IntlFormatted activeLocale None date).
Proof.
  intros this value format override.
  assert (Hformats : ∀ format' activeLocale date,
    available_locale this override = Some activeLocale →
    date_of value = Some date →
    transform this value [format'; override]
    = IntlFormatted activeLocale
                    (getOptionsForFormat (format_name format')) date).
  { intros format' activeLocale date Hloc Hdate. unfold transform. simpl.
    unfold available_locale in Hloc. unfold date_of in Hdate.
    destruct override; simpl in *;
      try (destruct (truthy_string (locale this)) eqn:Ht; [|done];
           rewrite Hloc; simpl);
      try (injection Hloc as <-);
      destruct value; simplify_eq; try done;
      destruct (truthy_string (locale this)); done. }
  split; [|split; [apply Hformats|repeat split; try reflexivity]].
  - unfold available_locale, transform. simpl.
    destruct override; try done;
      destruct (truthy_string (locale this)) eqn:Ht; try done;
      destruct (locale this); done.
  - by apply getOptionsForFormat_unrecognized.
  - intros activeLocale date Hloc Hdate.
    rewrite (Hformats (JsString f) activeLocale date Hloc Hdate). simpl.
    by rewrite getOptionsForFormat_unrecognized.
Qed.

Lemma transform_formats_with_locale_witness :
  transform (onLanguage (construct true true) (js "pt_BR"))
            (JsString (js "2024-03-01")) [JsString (js "longDate"); JsUndefined]
  = IntlFormatted (js "pt-BR")
      (Some (mkDateTimeFormatOptions (Some (js "long")) (Some (js "numeric"))
               (Some (js "numeric")) None None None None))
      (DateOfString (js "2024-03-01")).
Proof.
  exact (proj1 (proj2 (transform_formats_with_locale
                         (onLanguage (construct true true) (js "pt_BR"))
                         (JsString (js "2024-03-01"))
                         (JsString (js "longDate")) JsUndefined))
           (js "pt-BR") (DateOfString (js "2024-03-01")) eq_refl eq_refl).
Defined.

(** C4 as stated fails on a format name that is not one of the four:
    with the locale [en] stored, a date is formatted, without options,
    and the result is not [undefined]. *)
Lemma transform_unrecognized_format_counterexample :
  (js "iso" ∉ known_formats)
  ∧ transform (onLanguage (construct true true) (js "en"))
              (JsDateObject (DateOfTime 1709251200000))
              [JsString (js "iso")]
    = IntlFormatted (js "en") None (DateOfTime 1709251200000)
  ∧ transform (onLanguage (construct true true) (js "en"))
              (JsDateObject (DateOfTime 1709251200000))
              [JsString (js "iso")]
    ≠ Undefined.
Proof.
  split; [|split].
  - decide_string.
  - vm_compute. reflexivity.
  - vm_compute. discriminate.
Qed.

(** C10: [transform] returns [undefined], and makes no call that could
    throw, for every value that is neither a date nor a string, whatever
    the other arguments; and also whenever the stored locale is unset
    and the locale argument is not a string. *)
Theorem transform_undefined :
  ∀ (this : Pipe) (value : JsValue) (args : list JsValue),
    (is_date value = false → is_string value = false →
     transform this value args = Undefined)
    ∧ (locale this = None → is_string (arg args 1) = false →
       transform this value args = Undefined).
Proof.
  intros this value args. split.
  - intros Hd Hs. unfold transform.
    destruct (truthy_string (locale this) || is_string (arg args 1)); [|done].
    destruct value; done.
  - intros Hl Hs. unfold transform. by rewrite Hl, Hs.
Qed.

Lemma transform_undefined_witness :
  transform (construct false false) (JsNumber 1700000000000)
            [JsString (js "short"); JsString (js "en")] = Undefined
  ∧ transform (construct true true) (JsDateObject (DateOfTime 0))
              [JsString (js "short"); JsNumber 5] = Undefined.
Proof.
  split.
  - exact (proj1 (transform_undefined (construct false false)
                    (JsNumber 1700000000000)
                    [JsString (js "short"); JsString (js "en")])
             eq_refl eq_refl).
  - exact (proj2 (transform_undefined (construct true true)
                    (JsDateObject (DateOfTime 0))
                    [JsString (js "short"); JsNumber 5])
             eq_refl eq_refl).
Defined.

(** * Further properties *)

(** ** [kebabize]: shape of the output *)

Lemma toLowerCase_not_upper (c : ascii) : is_upper_letter (toLowerCase c) = false.
Proof. by_ascii_cases c. Qed.

Lemma lower_letter_not_upper (c : ascii) :
  is_lower_letter c = true → is_upper_letter c = false.
Proof. by_ascii_cases c. Qed.

Lemma toLowerCase_hyphen (c : ascii) :
  c ≠ "-"%char → toLowerCase c ≠ "-"%char.
Proof. by_ascii_cases c. Qed.

Lemma toLowerCase_fixed_iff (c : ascii) :
  toLowerCase c = c ↔ is_upper_letter c = false.
Proof. by_ascii_cases c. Qed.

(** What one step of the [map] callback yields, by the kind of character. *)
Lemma kebabize_letter_cases (i : nat) (c : ascii) :
  (is_lower_letter c = true ∧ kebabize_letter i c = [c])
  ∨ (is_lower_letter c = false
     ∧ kebabize_letter i c
       = (if (i =? 0)%nat then [] else ["-"%char]) ++ [toLowerCase c]).
Proof.
  unfold kebabize_letter.
  destruct (is_lower_letter c) eqn:L.
  - left. split; [done|].
    destruct (Ascii.eqb (toUpperCase c) c) eqn:E; [|done].
    apply Ascii.eqb_eq, toUpperCase_fixed_iff in E. congruence.
  - right. split; [done|].
    rewrite (proj2 (Ascii.eqb_eq _ _) (proj2 (toUpperCase_fixed_iff c) L)).
    by destruct i.
Qed.

Lemma elem_of_kebabize (s : jsstring) (x : ascii) :
  x ∈ kebabize s →
  x = "-"%char ∨ ∃ c, c ∈ s ∧ (x = toLowerCase c ∨ (x = c ∧ is_lower_letter c = true)).
Proof.
  unfold kebabize. intros Hx.
  apply list_elem_of_In, in_concat in Hx as (piece & Hp & Hxp).
  apply list_elem_of_In in Hp, Hxp.
  apply list_elem_of_lookup in Hp as [i Hi].
  rewrite list_lookup_imap in Hi.
  destruct (s !! i) as [c|] eqn:Hc; [|done]. simpl in Hi. injection Hi as <-.
  assert (Hin : c ∈ s) by (apply list_elem_of_lookup; eauto).
  destruct (kebabize_letter_cases i c) as [[L H]|[L H]]; rewrite H in Hxp.
  - apply list_elem_of_singleton in Hxp as ->. right. exists c. eauto.
  - apply elem_of_app in Hxp as [Hxp|Hxp].
    + left. destruct (i =? 0)%nat; [by apply elem_of_nil in Hxp|].
      by apply list_elem_of_singleton in Hxp.
    + apply list_elem_of_singleton in Hxp as ->. right. exists c. eauto.
Qed.

(** X1: no uppercase ASCII letter is left in the output of
    [kebabize]. *)
Theorem kebabize_no_uppercase (s : jsstring) (x : ascii) :
  x ∈ kebabize s → is_upper_letter x = false.
Proof.
  intros [->|(c & _ & [->|[-> L]])]%elem_of_kebabize.
  - done.
  - apply toLowerCase_not_upper.
  - by apply lower_letter_not_upper.
Qed.

Lemma kebabize_no_uppercase_witness :
  is_upper_letter "c"%char = false.
Proof.
  apply (kebabize_no_uppercase (js "VendureConfig") "c"%char).
  decide_string.
Defined.

Lemma kebabize_cons (c : ascii) (s : jsstring) :
  kebabize (c :: s)
  = kebabize_letter 0 c
    ++ concat (imap (fun j => kebabize_letter (1 + j)) s).
Proof. unfold kebabize. by rewrite imap_cons. Qed.

(** Pieces after the first position, and their length. *)
Lemma kebab_tail_cons (k : nat) (c : ascii) (l : jsstring) :
  concat (imap (fun j => kebabize_letter (S k + j)) (c :: l))
  = kebabize_letter (S k) c
    ++ concat (imap (fun j => kebabize_letter (S (S k) + j)) l).
Proof.
  rewrite imap_cons, imap_shift. cbn [concat].
  by replace (S k + 0)%nat with (S k) by lia.
Qed.

Lemma kebab_tail_length_exact (k : nat) (l : jsstring) :
  length (concat (imap (fun j => kebabize_letter (S k + j)) l))
  = (length l + length (filter (fun c => is_lower_letter c = false) l))%nat.
Proof.
  revert k. induction l as [|c l IH]; intros k; [done|].
  rewrite kebab_tail_cons, length_app, IH, filter_cons.
  destruct (kebabize_letter_cases (S k) c) as [[L ->]|[L ->]].
  - rewrite decide_False by congruence. simpl. lia.
  - rewrite decide_True by done. simpl. lia.
Qed.

Lemma kebabize_length_exact (s : jsstring) :
  length (kebabize s)
  = (length s
     + length (filter (fun c => is_lower_letter c = false) (drop 1 s)))%nat.
Proof.
  destruct s as [|c s]; [done|].
  rewrite kebabize_cons, length_app, (kebab_tail_length_exact 0).
  destruct (kebabize_letter_cases 0 c) as [[_ ->]|[_ ->]]; simpl; rewrite drop_0; lia.
Qed.

(** X2: on a string of ASCII characters, the output of [kebabize] is
    longer than its input by one hyphen for every character after the
    first that is not a lowercase letter. *)
Theorem kebabize_length (s : jsstring) :
  ascii_only s →
  length (kebabize s)
  = (length s
     + length (filter (fun c => is_lower_letter c = false) (drop 1 s)))%nat.
Proof. intros _. apply kebabize_length_exact. Qed.

Lemma kebabize_length_witness :
  length (kebabize "vendureConfig2") = (14 + 2)%nat.
Proof.
  exact (kebabize_length (js "vendureConfig2") eq_refl).
Defined.

(** X3: [kebabize] returns a string of ASCII characters unchanged
    exactly when its first character is not an uppercase letter and
    every later character is a lowercase letter. *)
Theorem kebabize_fixed_point_iff (s : jsstring) :
  ascii_only s →
  kebabize s = s
  ↔ forallb (fun c => negb (is_upper_letter c)) (take 1 s) = true
    ∧ forallb is_lower_letter (drop 1 s) = true.
Proof.
  intros _. split.
  - intros Heq. pose proof (kebabize_length_exact s) as Hlen.
    rewrite Heq in Hlen.
    assert (Hnil : filter (fun c => is_lower_letter c = false) (drop 1 s) = []).
    { apply nil_length_inv. lia. }
    split.
    + destruct s as [|c s]; [done|]. simpl.
      rewrite andb_true_r. apply negb_true_iff.
      rewrite kebabize_cons in Heq.
      destruct (kebabize_letter_cases 0 c) as [[L H]|[L H]]; rewrite H in Heq.
      * by apply lower_letter_not_upper.
      * simpl in Heq. injection Heq as Hc _. by apply toLowerCase_fixed_iff.
    + apply forallb_forall. intros c Hc%list_elem_of_In.
      destruct (is_lower_letter c) eqn:L; [done|].
      assert (c ∈ filter (fun c => is_lower_letter c = false) (drop 1 s)).
      { by apply list_elem_of_filter. }
      rewrite Hnil in H. by apply elem_of_nil in H.
  - intros [Hhead Htail]. destruct s as [|c s]; [done|].
    rewrite kebabize_cons. simpl in Hhead, Htail. rewrite drop_0 in Htail.
    rewrite andb_true_r in Hhead.
    apply negb_true_iff in Hhead.
    assert (H0 : kebabize_letter 0 c = [c]).
    { destruct (kebabize_letter_cases 0 c) as [[_ ->]|[_ ->]]; [done|].
      simpl. f_equal. by apply toLowerCase_fixed_iff. }
    rewrite H0. simpl. f_equal.
    assert (Hgen : ∀ k l, forallb is_lower_letter l = true →
              concat (imap (fun j => kebabize_letter (S k + j)) l) = l).
    { intros k l. revert k. induction l as [|x l IH]; intros k Hl; [done|].
      simpl in Hl. apply andb_prop in Hl as [Hx Hl].
      rewrite kebab_tail_cons, IH by done.
      destruct (kebabize_letter_cases (S k) x) as [[_ ->]|[L _]]; [done|congruence]. }
    apply (Hgen 0%nat). done.
Qed.

Lemma kebabize_fixed_point_iff_witness :
  kebabize "plugin" = "plugin".
Proof.
  apply (proj2 (kebabize_fixed_point_iff (js "plugin") eq_refl)).
  vm_compute. done.
Defined.

(** X4: on a string of ASCII characters, apart from hyphens,
    [kebabize] only lowercases: with the hyphens removed, the output is
    the lowercased input with its hyphens removed. *)
Theorem kebabize_strip_hyphens (s : jsstring) :
  ascii_only s →
  filter (fun c => c ≠ "-"%char) (kebabize s)
  = toLowerCase <$> filter (fun c => c ≠ "-"%char) s.
Proof.
  intros _.
  assert (Hpiece : ∀ i c,
    filter (fun c => c ≠ "-"%char) (kebabize_letter i c)
    = toLowerCase <$> filter (fun c => c ≠ "-"%char) [c]).
  { intros i c. destruct (decide (c = "-"%char)) as [->|Hne].
    - unfold kebabize_letter. simpl. by destruct i.
    - rewrite (filter_cons_True _ c []) by done. rewrite filter_nil. simpl.
      destruct (kebabize_letter_cases i c) as [[L ->]|[L ->]].
      + rewrite filter_cons_True by done. rewrite filter_nil.
        f_equal. symmetry. apply toLowerCase_fixed_iff.
        by apply lower_letter_not_upper.
      + rewrite filter_app.
        rewrite (filter_cons_True _ (toLowerCase c)) by (by apply toLowerCase_hyphen).
        rewrite filter_nil. by destruct i. }
  assert (Hgen : ∀ k l,
    filter (fun c => c ≠ "-"%char)
           (concat (imap (fun j => kebabize_letter (k + j)) l))
    = toLowerCase <$> filter (fun c => c ≠ "-"%char) l).
  { intros k l. revert k. induction l as [|x l IH]; intros k; [done|].
    rewrite imap_cons, imap_shift. cbn [concat].
    rewrite filter_app, IH, Hpiece.
    change (x :: l) with ([x] ++ l). by rewrite filter_app, fmap_app. }
  apply (Hgen 0%nat).
Qed.

Lemma kebabize_strip_hyphens_witness :
  filter (fun c => c ≠ "-"%char) (kebabize "my-ApiKey2")
  = js "myapikey2".
Proof.
  rewrite (kebabize_strip_hyphens (js "my-ApiKey2") eq_refl).
  vm_compute. reflexivity.
Defined.

(** ** Single iterations of the backward scan *)

Lemma scan_at_start (path : jsstring) (start : nat) (st : ScanState) :
  scan path start start st = st.
Proof.
  destruct start as [|i]; [done|]. simpl.
  by rewrite (proj2 (Nat.ltb_lt i (S i))) by lia.
Qed.

Lemma scan_slash (path : jsstring) (start i : nat) (st : ScanState) :
  (start ≤ i)%nat → charAt path i = "/"%char → matchedSlash st = false →
  scan path start (S i) st
  = mkScan (startDot st) (Z.of_nat i + 1) (end_ st) (matchedSlash st)
           (preDotState st).
Proof.
  intros Hi Hc Hm. simpl.
  rewrite (proj2 (Nat.ltb_ge i start)) by lia.
  by rewrite Hc, Hm.
Qed.

Lemma scan_last_plain (path : jsstring) (start i : nat) :
  (start ≤ i)%nat → charAt path i ≠ "/"%char → charAt path i ≠ "."%char →
  scan path start (S i) scan_init
  = scan path start i (mkScan (-1) 0 (Z.of_nat i + 1) false 0).
Proof.
  intros Hi Hs Hd. simpl.
  rewrite (proj2 (Nat.ltb_ge i start)) by lia.
  apply Ascii.eqb_neq in Hs, Hd. by rewrite Hs, Hd.
Qed.

Lemma scan_last_dot (path : jsstring) (start i : nat) :
  (start ≤ i)%nat → charAt path i = "."%char →
  scan path start (S i) scan_init
  = scan path start i (mkScan (Z.of_nat i) 0 (Z.of_nat i + 1) false 0).
Proof.
  intros Hi Hc. simpl.
  rewrite (proj2 (Nat.ltb_ge i start)) by lia.
  by rewrite Hc.
Qed.

Lemma scan_plain (path : jsstring) (start i : nat) (st : ScanState) :
  (start ≤ i)%nat → charAt path i ≠ "/"%char → charAt path i ≠ "."%char →
  end_ st ≠ -1 → startDot st = -1 →
  scan path start (S i) st = scan path start i st.
Proof.
  intros Hi Hs Hd He Hsd. simpl.
  rewrite (proj2 (Nat.ltb_ge i start)) by lia.
  apply Ascii.eqb_neq in Hs, Hd. rewrite Hs, Hd.
  rewrite (proj2 (Z.eqb_neq _ _) He). by rewrite Hsd.
Qed.

Lemma scan_first_dot (path : jsstring) (start i : nat) (st : ScanState) :
  (start ≤ i)%nat → charAt path i = "."%char →
  end_ st ≠ -1 → startDot st = -1 →
  scan path start (S i) st
  = scan path start i
      (mkScan (Z.of_nat i) (startPart st) (end_ st) (matchedSlash st)
              (preDotState st)).
Proof.
  intros Hi Hc He Hsd. simpl.
  rewrite (proj2 (Nat.ltb_ge i start)) by lia.
  rewrite Hc. simpl.
  rewrite (proj2 (Z.eqb_neq _ _) He). by rewrite Hsd.
Qed.

(** Left of the dot that starts the extension, every character only
    updates [preDotState]; a character that is not a dot sets it to
    [-1]. *)
Lemma scan_before_dot (path : jsstring) (start i : nat)
    (sd sp e : Z) (ms : bool) (pds : Z) :
  (start ≤ i)%nat → charAt path i ≠ "/"%char → e ≠ -1 → sd ≠ -1 →
  ∃ pds',
    scan path start (S i) (mkScan sd sp e ms pds)
    = scan path start i (mkScan sd sp e ms pds')
    ∧ (charAt path i ≠ "."%char → pds' = -1).
Proof.
  intros Hi Hs He Hsd. simpl.
  rewrite (proj2 (Nat.ltb_ge i start)) by lia.
  apply Ascii.eqb_neq in Hs. rewrite Hs.
  rewrite (proj2 (Z.eqb_neq _ _) He). simpl.
  rewrite (proj2 (Z.eqb_neq _ _) Hsd). simpl.
  destruct (Ascii.eqb (charAt path i) ".") eqn:Hd.
  - apply Ascii.eqb_eq in Hd.
    destruct (pds =? 1); simpl; eexists; (split; [done|congruence]).
  - by exists (-1).
Qed.

(** ** Runs of characters *)

Lemma scan_run_plain (path : jsstring) (start m n : nat) (st : ScanState) :
  (start ≤ m)%nat →
  (∀ j, (m ≤ j < m + n)%nat →
        charAt path j ≠ "/"%char ∧ charAt path j ≠ "."%char) →
  end_ st ≠ -1 → startDot st = -1 →
  scan path start (m + n) st = scan path start m st.
Proof.
  intros Hm Hrun He Hsd. induction n as [|n IH].
  - by rewrite Nat.add_0_r.
  - replace (m + S n)%nat with (S (m + n)) by lia.
    destruct (Hrun (m + n)%nat ltac:(lia)) as [Hs Hd].
    rewrite scan_plain by (done || lia).
    apply IH. intros j Hj. apply Hrun. lia.
Qed.

Lemma scan_run_before_dot (path : jsstring) (start m n : nat)
    (sd sp e : Z) (ms : bool) (pds : Z) :
  (start ≤ m)%nat →
  (∀ j, (m ≤ j < m + S n)%nat → charAt path j ≠ "/"%char) →
  charAt path m ≠ "."%char → e ≠ -1 → sd ≠ -1 →
  scan path start (m + S n) (mkScan sd sp e ms pds)
  = scan path start m (mkScan sd sp e ms (-1)).
Proof.
  intros Hm Hrun Hfirst He Hsd. revert pds. induction n as [|n IH]; intros pds.
  - replace (m + 1)%nat with (S m) by lia.
    destruct (scan_before_dot path start m sd sp e ms pds)
      as (pds' & -> & Hp); try done; [apply Hrun; lia|].
    by rewrite Hp.
  - replace (m + S (S n))%nat with (S (m + S n)) by lia.
    destruct (scan_before_dot path start (m + S n) sd sp e ms pds)
      as (pds' & -> & _); try done; [lia|apply Hrun; lia|].
    apply IH. intros j Hj. apply Hrun. lia.
Qed.

(** ** Paths by their parts *)

Lemma charAt_app_r (pre post : jsstring) (j : nat) :
  charAt (pre ++ post) (length pre + j) = charAt post j.
Proof. unfold charAt. by rewrite lookup_app_r, Nat.add_comm, Nat.add_sub by lia. Qed.

Lemma charAt_elem (s : jsstring) (j : nat) :
  (j < length s)%nat → charAt s j ∈ s.
Proof.
  intros Hj. unfold charAt.
  destruct (lookup_lt_is_Some_2 s j Hj) as [c Hc]. rewrite Hc. simpl.
  apply list_elem_of_lookup. eauto.
Qed.

(** The scan over [pre ++ "." ++ ext], down to the dot: the extension
    starts there. *)
Lemma scan_ext_dot (pre ext : jsstring) (start : nat) :
  (start ≤ length pre)%nat → "/"%char ∉ ext → "."%char ∉ ext →
  let path := pre ++ "."%char :: ext in
  scan path start (length path) scan_init
  = scan path start (length pre)
      (mkScan (Z.of_nat (length pre)) 0 (Z.of_nat (length path)) false 0).
Proof.
  intros Hstart Hes Hed path.
  assert (Hlen : length path = (length pre + S (length ext))%nat).
  { subst path. by rewrite length_app. }
  assert (Hdot : charAt path (length pre) = "."%char).
  { subst path. by rewrite <- (Nat.add_0_r (length pre)), charAt_app_r. }
  assert (Hext : ∀ j, (length pre + 1 ≤ j < length pre + 1 + length ext)%nat →
            charAt path j ≠ "/"%char ∧ charAt path j ≠ "."%char).
  { intros j Hj. subst path.
    replace j with (length pre + S (j - length pre - 1))%nat by lia.
    rewrite charAt_app_r. unfold charAt. simpl.
    pose proof (charAt_elem ext (j - length pre - 1) ltac:(lia)) as Hin.
    unfold charAt in Hin. split; intros Heq; rewrite Heq in Hin; done. }
  clearbody path.
  destruct ext as [|x ext0 _] using rev_ind.
  - simpl in Hlen. rewrite Hlen.
    replace (length pre + 1)%nat with (S (length pre)) by lia.
    rewrite scan_last_dot by (done || lia). do 2 f_equal. lia.
  - rewrite length_app in Hlen, Hext. simpl in Hlen, Hext.
    replace (length path) with (S (length pre + 1 + length ext0)) by lia.
    destruct (Hext (length pre + 1 + length ext0)%nat ltac:(lia)) as [Hs Hd].
    rewrite scan_last_plain by (done || lia).
    rewrite (scan_run_plain path start (length pre + 1) (length ext0));
      [|lia|intros j Hj; apply Hext; lia|simpl; lia|done].
    replace (length pre + 1)%nat with (S (length pre)) by lia.
    rewrite scan_first_dot; [|lia|done|simpl; lia|done].
    simpl. do 2 f_equal. lia.
Qed.

(** The scan over [lead ++ stem ++ "." ++ ext], down to the end of
    [lead]: the extension starts at the dot, and a character that is
    not a dot was seen to its left. *)
Lemma scan_stem_ext (lead stem ext : jsstring) (c : ascii) (start : nat) :
  (start ≤ length lead)%nat →
  c ≠ "."%char → "/"%char ∉ c :: stem → "/"%char ∉ ext → "."%char ∉ ext →
  let path := lead ++ (c :: stem) ++ "."%char :: ext in
  scan path start (length path) scan_init
  = scan path start (length lead)
      (mkScan (Z.of_nat (length lead + length (c :: stem))) 0
              (Z.of_nat (length path)) false (-1)).
Proof.
  intros Hstart Hc Hstem Hes Hed path.
  assert (Hpath : path = (lead ++ c :: stem) ++ "."%char :: ext).
  { subst path. by rewrite <- app_assoc. }
  assert (Hpre : length (lead ++ c :: stem)
                 = (length lead + S (length stem))%nat).
  { by rewrite length_app. }
  assert (Hstemrun : ∀ j, (length lead ≤ j < length lead + S (length stem))%nat →
            charAt path j ≠ "/"%char).
  { intros j Hj. subst path.
    replace j with (length lead + (j - length lead))%nat by lia.
    rewrite charAt_app_r. unfold charAt. rewrite lookup_app_l by (simpl; lia).
    pose proof (charAt_elem (c :: stem) (j - length lead) ltac:(simpl; lia)) as Hin.
    unfold charAt in Hin. intros Heq. rewrite Heq in Hin. done. }
  assert (Hfirst : charAt path (length lead) ≠ "."%char).
  { subst path. rewrite <- (Nat.add_0_r (length lead)), charAt_app_r. done. }
  clearbody path. subst path.
  rewrite (scan_ext_dot (lead ++ c :: stem) ext start) by (done || lia).
  rewrite Hpre.
  rewrite (scan_run_before_dot _ start (length lead) (length stem));
    [|lia|done|done|lia|lia].
  reflexivity.
Qed.

(** The scan over [lead ++ base] for a [base] without a dot. *)
Lemma scan_no_dot (lead base : jsstring) (c : ascii) (start : nat) :
  (start ≤ length lead)%nat →
  "/"%char ∉ c :: base → "."%char ∉ c :: base →
  let path := lead ++ c :: base in
  scan path start (length path) scan_init
  = scan path start (length lead)
      (mkScan (-1) 0 (Z.of_nat (length path)) false 0).
Proof.
  intros Hstart Hs Hd path.
  assert (Hlen : length path = (length lead + S (length base))%nat).
  { subst path. by rewrite length_app. }
  assert (Hrun : ∀ j, (length lead ≤ j < length lead + S (length base))%nat →
            charAt path j ≠ "/"%char ∧ charAt path j ≠ "."%char).
  { intros j Hj. subst path.
    replace j with (length lead + (j - length lead))%nat by lia.
    rewrite charAt_app_r.
    pose proof (charAt_elem (c :: base) (j - length lead) ltac:(simpl; lia)) as Hin.
    split; intros Heq; rewrite Heq in Hin; done. }
  rewrite Hlen. replace (length lead + S (length base))%nat
    with (S (length lead + length base)) by lia.
  destruct (Hrun (length lead + length base)%nat ltac:(lia)) as [H1 H2].
  rewrite scan_last_plain by (done || lia).
  rewrite (scan_run_plain path start (length lead) (length base));
    [|lia|intros j Hj; apply Hrun; lia|simpl; lia|done].
  do 2 f_equal. lia.
Qed.

(** ** [posix.parse] of a relative path, from the state of its scan *)

Lemma parse_relative (path : jsstring) (st : ScanState) :
  path ≠ [] → startsWith path "/" = false →
  scan path 0 (length path) scan_init = st → end_ st ≠ -1 →
  dir (parse path)
  = (if startPart st >? 0 then slice path 0 (startPart st - 1) else [])
  ∧ name (parse path)
    = (if (startDot st =? -1) || (preDotState st =? 0)
          || ((preDotState st =? 1) && (startDot st =? end_ st - 1)
              && (startDot st =? startPart st + 1))
       then slice path (startPart st) (end_ st)
       else slice path (startPart st) (startDot st)).
Proof.
  intros Hne Hrel Hscan He. unfold parse.
  destruct path as [|c p]; [done|].
  rewrite startsWith_slash in Hrel.
  assert (Habs : Ascii.eqb (charAt (c :: p) 0) "/" = false).
  { unfold charAt. simpl. by rewrite Ascii.eqb_sym. }
  change (length (c :: p) =? 0)%nat with false. cbv iota.
  rewrite Habs. cbv iota zeta. rewrite Hscan.
  rewrite (proj2 (Z.eqb_neq _ _) He). simpl negb. cbv iota.
  rewrite andb_false_r.
  split; [done|]. by destruct (_ || _).
Qed.

Lemma slice_from_zero (path : jsstring) (n : nat) :
  slice path 0 (Z.of_nat n) = take n path.
Proof. unfold slice. simpl. by rewrite Z.sub_0_r, Nat2Z.id. Qed.

Lemma slice_middle (pre mid post : jsstring) :
  slice (pre ++ mid ++ post) (Z.of_nat (length pre))
        (Z.of_nat (length pre + length mid))
  = mid.
Proof.
  unfold slice. rewrite Nat2Z.id.
  replace (Z.to_nat (Z.of_nat (length pre + length mid) - Z.of_nat (length pre)))
    with (length mid) by lia.
  by rewrite drop_app_length, take_app_length.
Qed.

(** The [dir] and [name] of [stem.ext], alone or below a directory. *)
Lemma parse_file_name (c : ascii) (stem ext : jsstring) :
  c ≠ "."%char → "/"%char ∉ c :: stem → "/"%char ∉ ext → "."%char ∉ ext →
  let path := (c :: stem) ++ "."%char :: ext in
  dir (parse path) = [] ∧ name (parse path) = c :: stem.
Proof.
  intros Hc Hs Hes Hed path.
  pose proof (scan_stem_ext [] stem ext c 0 ltac:(simpl; lia) Hc Hs Hes Hed)
    as Hscan.
  cbn [app length] in Hscan. fold path in Hscan.
  destruct (parse_relative path _ ltac:(done)
              ltac:(subst path; rewrite <- app_comm_cons, startsWith_slash;
                    apply Ascii.eqb_neq; intros <-; apply Hs; left)
              Hscan ltac:(simpl; lia)) as [-> ->].
  simpl. split; [done|].
  replace (Z.pos (Pos.of_succ_nat (length stem)))
    with (Z.of_nat (length (@nil ascii) + length (c :: stem))) by (simpl; lia).
  change 0 with (Z.of_nat (length (@nil ascii))).
  subst path. apply (slice_middle [] (c :: stem) ("."%char :: ext)).
Qed.

Lemma parse_dir_file_name (d : jsstring) (c : ascii) (stem ext : jsstring) :
  d ≠ [] → startsWith d "/" = false →
  c ≠ "."%char → "/"%char ∉ c :: stem → "/"%char ∉ ext → "."%char ∉ ext →
  let path := d ++ "/"%char :: (c :: stem) ++ "."%char :: ext in
  dir (parse path) = d ∧ name (parse path) = c :: stem.
Proof.
  intros Hd Hrel Hc Hs Hes Hed path.
  assert (Hpath : path = (d ++ ["/"%char]) ++ (c :: stem) ++ "."%char :: ext).
  { subst path. by rewrite <- app_assoc. }
  pose proof (scan_stem_ext (d ++ ["/"%char]) stem ext c 0 ltac:(lia)
                Hc Hs Hes Hed) as Hscan.
  cbv zeta in Hscan. rewrite <- Hpath in Hscan.
  rewrite length_app in Hscan. simpl length in Hscan.
  replace (length d + 1)%nat with (S (length d)) in Hscan by lia.
  assert (Hslash : charAt path (length d) = "/"%char).
  { subst path. by rewrite <- (Nat.add_0_r (length d)), charAt_app_r. }
  rewrite scan_slash in Hscan by (done || lia). simpl in Hscan.
  assert (Hrelp : startsWith path "/" = false).
  { subst path. destruct d as [|x d]; [done|].
    rewrite <- app_comm_cons, startsWith_slash.
    by rewrite startsWith_slash in Hrel. }
  destruct (parse_relative path _ ltac:(subst path; by destruct d) Hrelp Hscan
              ltac:(simpl; lia)) as [-> ->].
  simpl.
  rewrite (proj2 (Z.gtb_gt _ _)) by lia.
  split.
  - replace (Z.of_nat (length d) + 1 - 1) with (Z.of_nat (length d)) by lia.
    rewrite slice_from_zero. subst path. by rewrite take_app_length.
  - rewrite Hpath.
    replace (Z.of_nat (length d) + 1)
      with (Z.of_nat (length (d ++ ["/"%char]))) by (rewrite length_app; simpl; lia).
    replace (Z.of_nat (S (length d + S (length stem))))
      with (Z.of_nat (length (d ++ ["/"%char]) + length (c :: stem)))
      by (rewrite length_app; simpl; lia).
    apply slice_middle.
Qed.

Lemma parse_plain_name (c : ascii) (base : jsstring) :
  "/"%char ∉ c :: base → "."%char ∉ c :: base →
  dir (parse (c :: base)) = [] ∧ name (parse (c :: base)) = c :: base.
Proof.
  intros Hs Hd.
  pose proof (scan_no_dot [] base c 0 ltac:(simpl; lia) Hs Hd) as Hscan.
  cbn [app length] in Hscan.
  destruct (parse_relative (c :: base) _ ltac:(done)
              ltac:(rewrite startsWith_slash; apply Ascii.eqb_neq;
                    intros <-; apply Hs; left)
              Hscan ltac:(simpl; lia)) as [-> ->].
  simpl. split; [done|].
  change (Z.pos (Pos.of_succ_nat (length base)))
    with (Z.of_nat (length (c :: base))).
  rewrite slice_from_zero. by apply take_ge.
Qed.

Lemma parse_dot_file (ext : jsstring) :
  "/"%char ∉ ext → "."%char ∉ ext →
  dir (parse ("."%char :: ext)) = []
  ∧ name (parse ("."%char :: ext)) = "."%char :: ext.
Proof.
  intros Hs Hd.
  pose proof (scan_ext_dot [] ext 0 ltac:(simpl; lia) Hs Hd) as Hscan.
  cbn [app length] in Hscan.
  destruct (parse_relative ("."%char :: ext) _ ltac:(done) ltac:(done)
              Hscan ltac:(simpl; lia)) as [-> ->].
  simpl. split; [done|].
  change (Z.pos (Pos.of_succ_nat (length ext)))
    with (Z.of_nat (length ("."%char :: ext))).
  rewrite slice_from_zero. by apply take_ge.
Qed.

(** ** [convertPathToRelativeImport] from the parts of the path *)

Lemma convert_file (p n : jsstring) :
  dir (parse (replace_backslashes p)) = [] →
  name (parse (replace_backslashes p)) = n → "/"%char ∉ n →
  convertPathToRelativeImport p = "."%char :: "/"%char :: n.
Proof.
  intros Hd Hn Hs. rewrite convert_unfold, Hd, Hn.
  rewrite replace_double_slashes_dot.
  change (replace_double_slashes ("/"%char :: [] ++ "/"%char :: n))
    with ("/"%char :: replace_double_slashes n).
  by rewrite replace_double_slashes_id by (by apply has_double_slash_no_slash).
Qed.

Lemma convert_dir_file (p d n : jsstring) :
  dir (parse (replace_backslashes p)) = d →
  name (parse (replace_backslashes p)) = n →
  d ≠ [] → startsWith d "/" = false → has_double_slash d = false →
  last d ≠ Some "/"%char → "/"%char ∉ n →
  convertPathToRelativeImport p = "."%char :: "/"%char :: d ++ "/"%char :: n.
Proof.
  intros Hd Hn Hne Hrel Hds Hlast Hs. rewrite convert_unfold, Hd, Hn.
  apply replace_double_slashes_id.
  rewrite has_double_slash_cons_ne by done.
  pose proof (has_double_slash_dir_name d n Hds Hlast Hs) as Hdn.
  destruct d as [|x d]; [done|].
  rewrite startsWith_slash in Hrel.
  rewrite <- app_comm_cons, has_double_slash_cons2.
  rewrite app_comm_cons, Hdn. by rewrite (Ascii.eqb_sym x), Hrel.
Qed.

(** X5: [convertPathToRelativeImport] strips the last extension of the
    file name and nothing else: [stem.ext] becomes [./stem] and
    [dir/stem.ext] becomes [./dir/stem], where [stem] may hold further
    dots and the directory part is kept as it is (it is relative and
    has no doubled or trailing separator); backslashes count as
    separators. *)
Theorem convertPathToRelativeImport_strips_last_extension :
  ∀ (p : jsstring) (c : ascii) (stem ext : jsstring),
    c ≠ "."%char → "/"%char ∉ c :: stem → "/"%char ∉ ext → "."%char ∉ ext →
    (replace_backslashes p = (c :: stem) ++ "."%char :: ext →
     convertPathToRelativeImport p = "."%char :: "/"%char :: c :: stem)
    ∧ (∀ d : jsstring,
         d ≠ [] → startsWith d "/" = false → has_double_slash d = false →
         last d ≠ Some "/"%char →
         replace_backslashes p = d ++ "/"%char :: (c :: stem) ++ "."%char :: ext →
         convertPathToRelativeImport p
         = "."%char :: "/"%char :: d ++ "/"%char :: c :: stem).
Proof.
  intros p c stem ext Hc Hs Hes Hed. split.
  - intros Hp.
    destruct (parse_file_name c stem ext Hc Hs Hes Hed) as [Hd Hn].
    cbv zeta in Hd, Hn. rewrite <- Hp in Hd, Hn.
    by apply convert_file.
  - intros d Hne Hrel Hds Hlast Hp.
    destruct (parse_dir_file_name d c stem ext Hne Hrel Hc Hs Hes Hed) as [Hd Hn].
    cbv zeta in Hd, Hn. rewrite <- Hp in Hd, Hn.
    by apply convert_dir_file.
Qed.

Lemma convertPathToRelativeImport_strips_last_extension_witness :
  convertPathToRelativeImport "..\services\my.service.ts"
  = "./../services/my.service".
Proof.
  apply (proj2 (convertPathToRelativeImport_strips_last_extension
                  (js "..\services\my.service.ts") "m"%char (js "y.service")
                  (js "ts") ltac:(done) ltac:(decide_string)
                  ltac:(decide_string) ltac:(decide_string))
           (js "../services"));
    vm_compute; congruence.
Defined.

(** X6: a file name without a dot, and one whose only dot is its first
    character, have no extension for [convertPathToRelativeImport]:
    they are kept whole behind [./]. *)
Theorem convertPathToRelativeImport_without_extension :
  (∀ (p : jsstring) (c : ascii) (base : jsstring),
      "/"%char ∉ c :: base → "."%char ∉ c :: base →
      replace_backslashes p = c :: base →
      convertPathToRelativeImport p = "."%char :: "/"%char :: c :: base)
  ∧ (∀ (p ext : jsstring),
       "/"%char ∉ ext → "."%char ∉ ext →
       replace_backslashes p = "."%char :: ext →
       convertPathToRelativeImport p = "."%char :: "/"%char :: "."%char :: ext).
Proof.
  split.
  - intros p c base Hs Hd Hp.
    destruct (parse_plain_name c base Hs Hd) as [Hdir Hn].
    apply convert_file; rewrite ?Hp; done.
  - intros p ext Hs Hd Hp.
    destruct (parse_dot_file ext Hs Hd) as [Hdir Hn].
    apply convert_file; rewrite ?Hp; [done|done|].
    intros [?|?]%elem_of_cons; done.
Qed.

Lemma convertPathToRelativeImport_without_extension_witness :
  convertPathToRelativeImport "Dockerfile" = "./Dockerfile"
  ∧ convertPathToRelativeImport ".env" = "./.env".
Proof.
  split.
  - apply (proj1 convertPathToRelativeImport_without_extension
             (js "Dockerfile") "D"%char (js "ockerfile")).
    all: first [decide_string | reflexivity].
  - apply (proj2 convertPathToRelativeImport_without_extension
             (js ".env") (js "env"));
      first [decide_string | reflexivity].
Defined.

(** ** [posix.relative] on file paths *)

Lemma split_on_not_nil (sep : ascii) (s : jsstring) : split_on sep s ≠ [].
Proof.
  induction s as [|c s IH]; simpl; [done|].
  destruct (Ascii.eqb c sep); [done|]. by destruct (split_on sep s).
Qed.

Lemma split_on_plain (sep : ascii) (a : jsstring) :
  sep ∉ a → split_on sep a = [a].
Proof.
  induction a as [|c a IH]; intros Ha; simpl; [done|].
  rewrite (proj2 (Ascii.eqb_neq c sep)) by (intros ->; apply Ha; left).
  rewrite IH; [done|]. intros ?. apply Ha. by right.
Qed.

Lemma split_on_app_sep (sep : ascii) (p a : jsstring) :
  sep ∉ a → split_on sep (p ++ sep :: a) = split_on sep p ++ [a].
Proof.
  intros Ha. induction p as [|c p IH]; simpl.
  - rewrite Ascii.eqb_refl. by rewrite split_on_plain.
  - destruct (Ascii.eqb c sep); [by rewrite IH|].
    rewrite IH. pose proof (split_on_not_nil sep p).
    by destruct (split_on sep p).
Qed.

Lemma normalize_segments_file (allowAboveRoot : bool) (p a : jsstring) :
  file_name a →
  normalize_segments allowAboveRoot (p ++ "/"%char :: a)
  = normalize_segments allowAboveRoot p ++ [a].
Proof.
  intros (Hne & Hs & Hdot & Hdots). unfold normalize_segments.
  rewrite split_on_app_sep by done. rewrite foldl_snoc.
  unfold normalize_step at 1.
  by rewrite !bool_decide_eq_false_2 by done.
Qed.

Lemma drop_common_app (n x y : list jsstring) :
  drop_common (n ++ x) (n ++ y) = drop_common x y.
Proof.
  induction n as [|s n IH]; [done|]. simpl.
  by rewrite bool_decide_eq_true_2.
Qed.

Lemma drop_common_same (n : list jsstring) : drop_common n n = ([], []).
Proof.
  induction n as [|s n IH]; [done|]. simpl. by rewrite bool_decide_eq_true_2.
Qed.

Lemma relative_siblings (cwd dir a b : jsstring) :
  file_name a → file_name b → a ≠ b →
  relative cwd ("/"%char :: dir ++ "/"%char :: b)
               ("/"%char :: dir ++ "/"%char :: a)
  = "."%char :: "."%char :: "/"%char :: a.
Proof.
  intros Ha Hb Hab. unfold relative, resolve_segments.
  assert (Habs : ∀ x, NodePath.isAbsolute ("/"%char :: x) = true) by done.
  rewrite !Habs, !app_comm_cons.
  rewrite !normalize_segments_file by done.
  rewrite drop_common_app. simpl.
  rewrite bool_decide_eq_false_2 by congruence. done.
Qed.

(** X7: [getRelativeImportPath] counts the importing file itself as a
    directory level: for two different files of one directory the
    result climbs one level, [./../stem], where [stem] is the name of
    the imported file without its last extension. *)
Theorem getRelativeImportPath_siblings :
  ∀ (cwd dir b : jsstring) (c : ascii) (stem ext : jsstring),
    c ≠ "."%char → "/"%char ∉ c :: stem → "/"%char ∉ ext → "."%char ∉ ext →
    "\"%char ∉ (c :: stem) ++ "."%char :: ext →
    file_name b → b ≠ (c :: stem) ++ "."%char :: ext →
    getRelativeImportPath cwd
      (SourceFileAt ("/"%char :: dir ++ "/"%char :: (c :: stem) ++ "."%char :: ext))
      (SourceFileAt ("/"%char :: dir ++ "/"%char :: b))
    = "."%char :: "/"%char :: "."%char :: "."%char :: "/"%char :: c :: stem.
Proof.
  intros cwd dir b c stem ext Hc Hs Hes Hed Hb Hfb Hne.
  set (a := (c :: stem) ++ "."%char :: ext) in *.
  assert (Hfa : file_name a).
  { subst a. split; [done|]. split.
    - intros [?|[?|?]%elem_of_cons]%elem_of_app; done.
    - split; intros Heq; injection Heq; intros; by subst. }
  unfold getRelativeImportPath. simpl location_path.
  rewrite relative_siblings by done.
  assert (Hclean : replace_backslashes ("."%char :: "."%char :: "/"%char :: a)
                   = "."%char :: "."%char :: "/"%char :: a).
  { apply replace_backslashes_none.
    intros [?|[?|[?|?]%elem_of_cons]%elem_of_cons]%elem_of_cons; done. }
  destruct (parse_dir_file_name ["."%char; "."%char] c stem ext
              ltac:(done) ltac:(done) Hc Hs Hes Hed) as [Hd Hn].
  apply (convert_dir_file _ ["."%char; "."%char] (c :: stem));
    rewrite ?Hclean; done.
Qed.

Lemma getRelativeImportPath_siblings_witness :
  getRelativeImportPath (js "/project")
    (SourceFileAt (js "/project/src/service.ts"))
    (SourceFileAt (js "/project/src/plugin.ts"))
  = js "./../service".
Proof.
  apply (getRelativeImportPath_siblings (js "/project") (js "project/src")
           (js "plugin.ts") "s"%char (js "ervice") (js "ts"));
    try done; try decide_string.
Defined.

(** X8: for two locations with the same path, a file or a directory,
    [getRelativeImportPath] returns [./]. *)
Theorem getRelativeImportPath_same_path :
  ∀ (cwd : jsstring) (from to : Location),
    location_path from = location_path to →
    getRelativeImportPath cwd from to = js "./".
Proof.
  intros cwd from to Heq. unfold getRelativeImportPath, relative.
  rewrite Heq, drop_common_same. reflexivity.
Qed.

Lemma getRelativeImportPath_same_path_witness :
  getRelativeImportPath (js "/project")
    (SourceFileAt (js "/project/src/plugin.ts"))
    (DirectoryAt (js "/project/src/plugin.ts"))
  = js "./".
Proof. by apply getRelativeImportPath_same_path. Defined.

(** ** Named imports after a merge *)

(** X11: when [addImportsToFile] finds a declaration for a string
    specifier, and that declaration has no namespace import and gets
    none from the call (none is asked for, or the declaration has a
    default import), the call returns and the named imports of the
    declaration afterwards are the former ones followed by the requested
    names, identifiers, that were not among them, in the order of the
    request; a name that is new and requested twice is added twice, and
    without repetitions on either side the result has none. *)
Theorem addImportsToFile_named_imports_appended :
  ∀ (cwd : jsstring) (sf : SourceFile) (m : jsstring)
    (existing : ImportDeclaration) (requested : list jsstring)
    (ns : option jsstring) (order : option nat),
    getImportDeclaration sf (has_specifier m) = Some existing →
    plain_names (mkImportOptions (SpecifierString m) (Some requested) ns order)
    = true →
    namespaceImport existing = None →
    truthy_string ns = false ∨ is_Some (defaultImport existing) →
    let call :=
      addImportsToFile cwd sf
        (mkImportOptions (SpecifierString m) (Some requested) ns order) in
    call.2 = Returned tt
    ∧ ∃ merged,
        getImportDeclaration call.1 (has_specifier m) = Some merged
        ∧ merged
          = with_named_imports
              (namedImports existing
                 ++ filter (fun n => n ∉ namedImports existing) requested)
              existing
        ∧ (NoDup (namedImports existing) → NoDup requested →
           NoDup (namedImports merged)).
Proof.
  intros cwd sf m existing requested ns order Hex _ Hns Hskip call.
  set (options := mkImportOptions (SpecifierString m) (Some requested) ns order)
    in *.
  destruct (addImportsToFile_found cwd sf m existing (Some requested) ns order Hex)
    as (i & _ & _ & _ & Hcall & Hget).
  fold options in Hcall, Hget. fold call in Hcall, Hget.
  assert (Hmerge : merge_into_existing options existing
                   = (with_named_imports
                        (namedImports existing
                           ++ filter (fun n => n ∉ namedImports existing)
                                     requested)
                        existing,
                      Returned tt)).
  { destruct (merge_into_existing_cases options existing)
      as [(Hw & _)|[(Hw & _)|(_ & ->)]].
    - unfold options in Hw. cbn [opt_namespaceImport] in Hw.
      destruct Hskip as [Ht|Hx]; [by rewrite Ht in Hw|].
      rewrite (bool_decide_eq_true_2 _ Hx) in Hw.
      by rewrite andb_false_r in Hw.
    - unfold options in Hw. cbn [opt_namespaceImport] in Hw.
      destruct Hskip as [Ht|Hx]; [by rewrite Ht in Hw|].
      rewrite (bool_decide_eq_true_2 _ Hx) in Hw.
      by rewrite andb_false_r in Hw.
    - simpl. apply add_missing_named_imports_appends. by right. }
  rewrite Hmerge in Hcall, Hget. split; [by rewrite Hcall|].
  eexists. split; [exact Hget|]. split; [done|].
  intros Hnd Hreq. simpl. apply NoDup_app. split; [done|]. split.
  - intros n Hn [Hnot _]%list_elem_of_filter. done.
  - by apply NoDup_filter.
Qed.

Lemma addImportsToFile_named_imports_appended_witness :
  ∃ merged,
    getImportDeclaration
      (addImportsToFile (js "/project") coreFile
         (mkImportOptions (SpecifierString (js "@vendure/core"))
            (Some [js "Type"; js "PluginCommonModule"; js "Type"]) None None)).1
      (has_specifier (js "@vendure/core")) = Some merged
    ∧ namedImports merged
      = [js "PluginCommonModule"; js "Type"; js "Type"].
Proof.
  destruct (addImportsToFile_named_imports_appended (js "/project") coreFile
              (js "@vendure/core")
              (mkImportDeclaration (js "@vendure/core") None None
                 [js "PluginCommonModule"])
              [js "Type"; js "PluginCommonModule"; js "Type"] None None
              eq_refl eq_refl eq_refl ltac:(by left))
    as (_ & merged & Hget & Hnames & _).
  exists merged. split; [exact Hget|]. rewrite Hnames. vm_compute. reflexivity.
Defined.

(** ** What a merge leaves alone *)

(** X12: when [addImportsToFile] finds a declaration for a string
    specifier it merges in place: [order] is ignored, the file keeps the
    number of its statements, and every statement that is not an import
    of that specifier stays where it is, unchanged. *)
Theorem addImportsToFile_merges_in_place :
  ∀ (cwd : jsstring) (sf : SourceFile) (m : jsstring)
    (existing : ImportDeclaration) (named : option (list jsstring))
    (ns : option jsstring) (order order' : option nat),
    getImportDeclaration sf (has_specifier m) = Some existing →
    let after :=
      (addImportsToFile cwd sf
         (mkImportOptions (SpecifierString m) named ns order)).1 in
    addImportsToFile cwd sf (mkImportOptions (SpecifierString m) named ns order)
    = addImportsToFile cwd sf (mkImportOptions (SpecifierString m) named ns order')
    ∧ length (statements after) = length (statements sf)
    ∧ (∀ j st, statements sf !! j = Some st →
               (∀ d, st = ImportStatement d → moduleSpecifierValue d ≠ m) →
               statements after !! j = Some st).
Proof.
  intros cwd sf m existing named ns order order' Hex after.
  destruct (addImportsToFile_found cwd sf m existing named ns order Hex)
    as (i & Hfind & Hlook & Hspec & Hcall & _).
  destruct (addImportsToFile_found cwd sf m existing named ns order' Hex)
    as (i' & Hfind' & _ & _ & Hcall' & _).
  assert (i' = i) by congruence. subst i'.
  subst after. rewrite Hcall, Hcall'. simpl. split; [|split].
  - reflexivity.
  - by rewrite length_alter.
  - intros j st Hj Hst. destruct (decide (i = j)) as [->|Hne].
    + rewrite Hlook in Hj. injection Hj as <-.
      by destruct (Hst existing eq_refl).
    + by rewrite list_lookup_alter_ne.
Qed.

Lemma addImportsToFile_merges_in_place_witness :
  addImportsToFile (js "/project") coreFile
    (mkImportOptions (SpecifierString (js "@vendure/core")) (Some [js "Type"])
                     None (Some 1%nat))
  = addImportsToFile (js "/project") coreFile
      (mkImportOptions (SpecifierString (js "@vendure/core")) (Some [js "Type"])
                       None None).
Proof.
  exact (proj1 (addImportsToFile_merges_in_place (js "/project") coreFile
                  (js "@vendure/core")
                  (mkImportDeclaration (js "@vendure/core") None None
                     [js "PluginCommonModule"])
                  (Some [js "Type"]) None (Some 1%nat) None eq_refl)).
Defined.

(** ** Where a new declaration goes *)

Lemma setOrder_moves (sf : SourceFile) (i order : nat) (st : Statement)
    (others : list Statement) :
  statements sf = take i others ++ st :: drop i others →
  (i ≤ length others)%nat →
  setOrder sf i order
  = if (S (length others) <=? order)%nat
    then inr (js "Argument Error (order): out of range.")
    else inl (mkSourceFile (filePath sf)
                (take order others ++ st :: drop order others)).
Proof.
  intros Hsts Hi. unfold setOrder.
  assert (Hlook : statements sf !! i = Some st).
  { rewrite Hsts, lookup_app_r by (rewrite length_take; lia).
    rewrite length_take_le by lia. by rewrite Nat.sub_diag. }
  assert (Hdel : delete i (statements sf) = others).
  { rewrite Hsts.
    transitivity (delete (length (take i others))
                    (take i others ++ st :: drop i others)).
    - by rewrite length_take_le by lia.
    - rewrite delete_middle. apply take_drop. }
  assert (Hlen : length (statements sf) = S (length others)).
  { rewrite Hsts, length_app, length_take_le by lia. simpl.
    rewrite length_drop. lia. }
  by rewrite Hlook, Hdel, Hlen.
Qed.

(** X13: when [addImportsToFile] finds no declaration and ts-morph
    accepts the structure of the request, the children of the file
    afterwards (its statements and the comments between them) are the
    former ones with the new declaration put in.  With an [order] of at
    most their former number the call returns and the declaration is at
    index [order]; with a greater [order] the call throws and leaves the
    file as a call without [order] does.  Without [order] the call
    returns, and the declaration stands right after the last import
    declaration of the file, and first in a file without import
    declarations that does not start with a comment. *)
Theorem addImportsToFile_places_new_declaration :
  ∀ (cwd : jsstring) (sf : SourceFile) (options : ImportOptions),
    find_import
      (fun d => strict_equal_specifier (moduleSpecifierValue d)
                                       (opt_moduleSpecifier options))
      (statements sf) = None →
    plain_request cwd sf options = true →
    accepted_structure options = true →
    let new :=
      ImportStatement
        (import_structure
           (getModuleSpecifierString cwd (opt_moduleSpecifier options) sf)
           options) in
    let call := addImportsToFile cwd sf options in
    let without_order :=
      addImportsToFile cwd sf
        (mkImportOptions (opt_moduleSpecifier options)
                         (opt_namedImports options)
                         (opt_namespaceImport options) None) in
    (∀ order, opt_order options = Some order →
              (order ≤ length (statements sf))%nat →
              call
              = (mkSourceFile (filePath sf)
                   (take order (statements sf) ++ new
                      :: drop order (statements sf)),
                 Returned tt))
    ∧ (∀ order, opt_order options = Some order →
                (length (statements sf) < order)%nat →
                call.1 = without_order.1 ∧ ∃ message, call.2 = Thrown message)
    ∧ without_order.2 = Returned tt
    ∧ filePath without_order.1 = filePath sf
    ∧ (∀ before d after,
         statements sf = before ++ ImportStatement d :: after →
         Forall (fun st => is_import st = false) after →
         statements without_order.1
         = before ++ ImportStatement d :: new :: after)
    ∧ (Forall (fun st => is_import st = false) (statements sf) →
       starts_with_comment sf = false →
       statements without_order.1 = new :: statements sf).
Proof.
  intros cwd sf options Hnone _ Hacc new call without_order.
  set (structure := import_structure _ _) in *.
  assert (Hadd : addImportDeclaration sf structure
                 = inl (mkSourceFile (filePath sf)
                          (take (import_insert_index (statements sf))
                                (statements sf)
                             ++ new
                             :: drop (import_insert_index (statements sf))
                                     (statements sf)),
                        import_insert_index (statements sf))).
  { apply addImportDeclaration_accepted.
    by apply import_structure_accepted. }
  assert (Hwithout : without_order
                     = (mkSourceFile (filePath sf)
                          (take (import_insert_index (statements sf))
                                (statements sf)
                             ++ new
                             :: drop (import_insert_index (statements sf))
                                     (statements sf)),
                        Returned tt)).
  { subst without_order. unfold addImportsToFile.
    cbn [opt_moduleSpecifier opt_order]. rewrite Hnone.
    change (import_structure _ _) with structure. by rewrite Hadd. }
  pose proof (import_insert_index_le (statements sf)) as Hle.
  set (i := import_insert_index (statements sf)) in *.
  assert (Hcall : ∀ order, opt_order options = Some order →
            call = match setOrder
                           (mkSourceFile (filePath sf)
                              (take i (statements sf) ++ new
                                 :: drop i (statements sf))) i order with
                   | inl sf' => (sf', Returned tt)
                   | inr message =>
                       (mkSourceFile (filePath sf)
                          (take i (statements sf) ++ new
                             :: drop i (statements sf)),
                        Thrown message)
                   end).
  { intros order Horder. subst call. unfold addImportsToFile.
    rewrite Hnone. fold structure. by rewrite Hadd, Horder. }
  split; [|split; [|split; [|split; [|split]]]].
  - intros order Horder Hord. rewrite (Hcall order Horder).
    rewrite (setOrder_moves _ i order new (statements sf)) by done.
    destruct (Nat.leb_spec (S (length (statements sf))) order); [lia|done].
  - intros order Horder Hord. rewrite (Hcall order Horder), Hwithout.
    rewrite (setOrder_moves _ i order new (statements sf)) by done.
    destruct (Nat.leb_spec (S (length (statements sf))) order); [|lia].
    split; [done|]. by eexists.
  - by rewrite Hwithout.
  - by rewrite Hwithout.
  - intros before d after Hsts Hafter. rewrite Hwithout. simpl.
    assert (Hi : i = S (length before)).
    { subst i. rewrite Hsts. by apply import_insert_index_after_last. }
    rewrite Hi, Hsts.
    replace (S (length before))
      with (length (before ++ [ImportStatement d]))
      by (rewrite length_app; simpl; lia).
    rewrite (app_assoc before [ImportStatement d] after : before ++ ImportStatement d :: after = _).
    rewrite take_app_length, drop_app_length.
    by rewrite <- app_assoc.
  - intros Hsts Hhead. rewrite Hwithout. simpl.
    assert (Hi : i = 0%nat).
    { apply import_insert_index_first; [done|].
      unfold starts_with_comment in Hhead.
      destruct (statements sf) as [|[| | |]]; done. }
    rewrite Hi. by rewrite take_0, drop_0.
Qed.

Lemma addImportsToFile_places_new_declaration_witness :
  addImportsToFile (js "/project") commentedFile
    (mkImportOptions (SpecifierString (js "typeorm")) (Some [js "Entity"])
                     None (Some 2%nat))
  = (mkSourceFile (js "/project/src/plugin.ts")
       [CommentNode false (js "// the plugin");
        ImportStatement
          (mkImportDeclaration (js "@vendure/core") None None
             [js "PluginCommonModule"]);
        ImportStatement
          (mkImportDeclaration (js "typeorm") None None [js "Entity"]);
        OtherStatement (js "export class MyPlugin {}")],
     Returned tt).
Proof.
  exact (proj1 (addImportsToFile_places_new_declaration (js "/project")
                  commentedFile
                  (mkImportOptions (SpecifierString (js "typeorm"))
                     (Some [js "Entity"]) None (Some 2%nat))
                  eq_refl eq_refl eq_refl)
           2%nat eq_refl ltac:(simpl; lia)).
Defined.

(** ** The fallback of the configuration locator *)

Lemma config_initializer_object_literal (o : option SourceFile) (n : Node) :
  config_initializer o = Some n → isObjectLiteralExpression n = true.
Proof.
  unfold config_initializer. destruct o as [sf|]; simpl; [|done].
  destruct (List.find isVendureConfigVariableDeclaration _) as [v|]; simpl;
    [|done].
  intros H. by apply find_some in H as [_ ?].
Qed.

Lemma getDirectory_directories (cwd : jsstring) (p q : Project)
    (name : jsstring) :
  directories p = directories q →
  getDirectory cwd p name = getDirectory cwd q name.
Proof. unfold getDirectory. by intros ->. Qed.

(** A file that takes its place in the listing is one more file of the
    listing. *)
Lemma insert_listed_one_more (before : jsstring → jsstring → bool)
    (f : SourceFile) (files : list SourceFile) :
  one_more_file f files (insert_listed before f files).
Proof.
  unfold one_more_file. induction files as [|g files IH]; simpl; [done|].
  destruct (before (filePath f) (filePath g)); [done|].
  rewrite IH. apply Permutation_swap.
Qed.

(** A search that no file of the listing passes is decided by the file
    that was added. *)
Lemma find_insert_listed (p : SourceFile → bool)
    (before : jsstring → jsstring → bool) (f : SourceFile)
    (files : list SourceFile) :
  List.find p files = None →
  List.find p (insert_listed before f files) = if p f then Some f else None.
Proof.
  induction files as [|g files IH]; simpl.
  - intros _. by destruct (p f).
  - destruct (p g) eqn:Hg; [done|]. intros Hnone.
    destruct (before (filePath f) (filePath g)); simpl.
    + destruct (p f); [done|]. by rewrite Hg.
    + rewrite Hg. by apply IH.
Qed.

Lemma find_insert_listed_added (p : SourceFile → bool)
    (before : jsstring → jsstring → bool) (f : SourceFile)
    (files : list SourceFile) :
  p f = true → is_Some (List.find p (insert_listed before f files)).
Proof.
  intros Hf. induction files as [|g files IH]; simpl.
  - rewrite Hf. eauto.
  - destruct (before (filePath f) (filePath g)); simpl.
    + rewrite Hf. eauto.
    + destruct (p g); eauto.
Qed.

(** What the fallback does to the project when it returns. *)
Lemma findAndAdd_returned (cwd : jsstring) (fs : FileSystem)
    (project project' : Project) :
  findAndAddVendureConfigToProject cwd fs project = Returned project' →
  project' = project
  ∨ ∃ srcDirPath srcFiles name sts,
      getDirectory cwd project "src" = Some srcDirPath
      ∧ readdirSync fs srcDirPath = Some srcFiles
      ∧ List.find (fun file => includes file "vendure-config.ts") srcFiles
        = Some name
      ∧ List.find (fun sf => bool_decide
                               (filePath sf = NodePath.join srcDirPath name))
                  (sourceFiles project) = None
      ∧ parsedAt fs (NodePath.join srcDirPath name) = Some sts
      ∧ project'
        = mkProject
            (insert_listed (listedBefore project)
               (mkSourceFile (NodePath.join srcDirPath name) sts)
               (sourceFiles project))
            (directories project) (listedBefore project).
Proof.
  unfold findAndAddVendureConfigToProject, addSourceFileAtPath.
  destruct (getDirectory cwd project "src") as [dir|] eqn:Hdir;
    [|intros [= <-]; by left].
  destruct (readdirSync fs dir) as [names|] eqn:Hnames; [|done].
  destruct (List.find _ names) as [name|] eqn:Hname;
    [|intros [= <-]; by left].
  destruct (List.find _ (sourceFiles project)) as [sf|] eqn:Hloaded;
    [intros [= <-]; by left|].
  destruct (parsedAt fs (NodePath.join dir name)) as [sts|] eqn:Hparsed;
    [|done].
  intros [= <-]. right. by exists dir, names, name, sts.
Qed.

(** X14: a call of [getVendureConfig] that returns leaves the
    directories of the project as they were and adds at most one source
    file, only when no loaded file matched, parsed from the disk; the
    files that were loaded all stay; a node it returns is an object
    literal. *)
Theorem getVendureConfig_grows_by_one_file :
  ∀ (cwd : jsstring) (fs : FileSystem) (project project' : Project)
    (checkFileNameOption : option bool) (result : option Node),
    getVendureConfig cwd fs project checkFileNameOption
    = Returned (project', result) →
    directories project' = directories project
    ∧ (sourceFiles project' = sourceFiles project
       ∨ ∃ f, one_more_file f (sourceFiles project) (sourceFiles project')
              ∧ parsedAt fs (filePath f) = Some (statements f)
              ∧ getVendureConfigSourceFile (default true checkFileNameOption)
                                           (sourceFiles project) = None)
    ∧ (∀ n, result = Some n → isObjectLiteralExpression n = true).
Proof.
  intros cwd fs project project' checkFileNameOption result.
  unfold getVendureConfig.
  destruct (getVendureConfigSourceFile _ (sourceFiles project)) as [sf|] eqn:Hfirst.
  - intros [= <- <-]. split; [done|]. split; [by left|].
    intros n. apply (config_initializer_object_literal (Some sf)).
  - destruct (findAndAddVendureConfigToProject cwd fs project) as [p1| |] eqn:Hadd;
      [|done|done].
    intros [= <- <-].
    split; [|split].
    + apply findAndAdd_returned in Hadd
        as [->|(? & ? & ? & ? & _ & _ & _ & _ & _ & ->)]; done.
    + apply findAndAdd_returned in Hadd
        as [->|(dir & names & name & sts & _ & _ & _ & _ & Hparsed & ->)];
        [by left|].
      right. eexists. split; [apply insert_listed_one_more|]. done.
    + intros n. apply config_initializer_object_literal.
Qed.

Lemma getVendureConfig_grows_by_one_file_witness :
  directories (mkProject [pluginFile; configFile] [js "/project/src"] pathOrder)
  = directories (mkProject [pluginFile] [js "/project/src"] pathOrder)
  ∧ isObjectLiteralExpression (ObjectLiteralExpression (js "{ apiOptions: {} }"))
    = true.
Proof.
  destruct (getVendureConfig_grows_by_one_file (js "/project") srcDisk
              (mkProject [pluginFile] [js "/project/src"] pathOrder)
              (mkProject [pluginFile; configFile] [js "/project/src"] pathOrder)
              None
              (Some (ObjectLiteralExpression (js "{ apiOptions: {} }")))
              ltac:(vm_compute; reflexivity))
    as (Hdirs & _ & Hobj).
  split; [exact Hdirs|]. by apply Hobj.
Defined.

(** X15: [getVendureConfig] called again on the project it returned
    returns the same result and leaves that project as it is. *)
Theorem getVendureConfig_idempotent :
  ∀ (cwd : jsstring) (fs : FileSystem) (project project' : Project)
    (checkFileNameOption : option bool) (result : option Node),
    getVendureConfig cwd fs project checkFileNameOption
    = Returned (project', result) →
    getVendureConfig cwd fs project' checkFileNameOption
    = Returned (project', result).
Proof.
  intros cwd fs project project' checkFileNameOption result.
  unfold getVendureConfig.
  set (check := default true checkFileNameOption).
  destruct (getVendureConfigSourceFile check (sourceFiles project))
    as [sf|] eqn:Hfirst.
  - intros [= <- <-]. by rewrite Hfirst.
  - destruct (findAndAddVendureConfigToProject cwd fs project) as [p1| |] eqn:Hadd;
      [|done|done].
    intros [= <- <-].
    pose proof Hadd as Hcases.
    apply findAndAdd_returned in Hcases
      as [->|(dir & names & name & sts & Hdir & Hnames & Hname & Hloaded
              & Hparsed & ->)].
    + by rewrite Hfirst, Hadd, Hfirst.
    + cbn [sourceFiles].
      set (added := mkSourceFile (NodePath.join dir name) sts).
      set (files := insert_listed (listedBefore project) added
                                  (sourceFiles project)).
      destruct (getVendureConfigSourceFile check files)
        as [found|] eqn:Hsecond; [done|].
      (* the added file does not match: the fallback finds it loaded *)
      assert (Hagain :
        findAndAddVendureConfigToProject cwd fs
          (mkProject files (directories project) (listedBefore project))
        = Returned
            (mkProject files (directories project) (listedBefore project))).
      { unfold findAndAddVendureConfigToProject, addSourceFileAtPath.
        rewrite (getDirectory_directories cwd _ project) by done.
        rewrite Hdir, Hnames, Hname. cbn [sourceFiles].
        destruct (find_insert_listed_added
                    (fun sf => bool_decide (filePath sf = NodePath.join dir name))
                    (listedBefore project) added (sourceFiles project))
          as [x Hx]; [by apply bool_decide_eq_true|].
        fold files in Hx. by rewrite Hx. }
      rewrite Hagain. cbn [sourceFiles]. by rewrite Hsecond.
Qed.

Lemma getVendureConfig_idempotent_witness :
  getVendureConfig (js "/project") srcDisk
    (mkProject [pluginFile; configFile] [js "/project/src"] pathOrder) None
  = Returned (mkProject [pluginFile; configFile] [js "/project/src"] pathOrder,
              Some (ObjectLiteralExpression (js "{ apiOptions: {} }"))).
Proof.
  apply (getVendureConfig_idempotent (js "/project") srcDisk
           (mkProject [pluginFile] [js "/project/src"] pathOrder)).
  vm_compute. reflexivity.
Defined.

(** X16: when no loaded file matches, the fallback adds the first
    entry of the [src] directory whose name contains
    [vendure-config.ts], and the result is decided by that file alone:
    its configuration object when the file passes the search (its path
    must end with [vendure-config.ts] when [checkFileName] is set),
    [undefined] otherwise, whatever the entries listed after it.  The
    project afterwards has that file besides the files it had, and the
    directories it had. *)
Theorem getVendureConfig_fallback_uses_first_listed :
  ∀ (cwd : jsstring) (fs : FileSystem) (project : Project)
    (checkFileNameOption : option bool)
    (srcDirPath : jsstring) (before : list jsstring) (name : jsstring)
    (after : list jsstring) (sts : list Statement),
    let checkFileName := default true checkFileNameOption in
    let added := mkSourceFile (NodePath.join srcDirPath name) sts in
    getVendureConfigSourceFile checkFileName (sourceFiles project) = None →
    getDirectory cwd project "src" = Some srcDirPath →
    readdirSync fs srcDirPath = Some (before ++ name :: after) →
    Forall (fun file => includes file "vendure-config.ts" = false) before →
    includes name "vendure-config.ts" = true →
    Forall (fun sf => filePath sf ≠ NodePath.join srcDirPath name)
           (sourceFiles project) →
    parsedAt fs (NodePath.join srcDirPath name) = Some sts →
    ∃ project',
      getVendureConfig cwd fs project checkFileNameOption
      = Returned
          (project',
           if isVendureConfigSourceFile checkFileName added
           then config_initializer (Some added) else None)
      ∧ one_more_file added (sourceFiles project) (sourceFiles project')
      ∧ directories project' = directories project.
Proof.
  intros cwd fs project checkFileNameOption srcDirPath before name after sts
    checkFileName added Hnone Hdir Hls Hbefore Hname Hfresh Hparsed.
  unfold getVendureConfig. fold checkFileName. rewrite Hnone.
  unfold findAndAddVendureConfigToProject, addSourceFileAtPath.
  rewrite Hdir, Hls, (find_first _ before after name Hbefore Hname).
  assert (Hloaded :
    List.find (fun sf => bool_decide (filePath sf = NodePath.join srcDirPath name))
              (sourceFiles project) = None).
  { apply find_none_iff. eapply Forall_impl; [exact Hfresh|].
    intros sf Hsf. by apply bool_decide_eq_false. }
  rewrite Hloaded, Hparsed. fold added. eexists. split; [|split].
  - do 2 f_equal. cbn [sourceFiles]. unfold getVendureConfigSourceFile.
    rewrite find_insert_listed by done.
    by destruct (isVendureConfigSourceFile checkFileName added).
  - apply insert_listed_one_more.
  - done.
Qed.

Lemma getVendureConfig_fallback_uses_first_listed_witness :
  ∃ project',
    getVendureConfig (js "/project") backupDisk
      (mkProject [pluginFile] [js "/project/src"] pathOrder) None
    = Returned (project', None)
    ∧ one_more_file
        (mkSourceFile (js "/project/src/vendure-config.ts.bak")
                      (statements configFile))
        [pluginFile] (sourceFiles project').
Proof.
  destruct (getVendureConfig_fallback_uses_first_listed (js "/project")
              backupDisk
              (mkProject [pluginFile] [js "/project/src"] pathOrder) None
              (js "/project/src") [js "index.ts"] (js "vendure-config.ts.bak")
              [js "vendure-config.ts"] (statements configFile)
              eq_refl eq_refl eq_refl
              ltac:(constructor; [reflexivity|constructor]) eq_refl
              ltac:(constructor; [|constructor]; vm_compute; congruence)
              eq_refl)
    as (project' & Hcall & Hfiles & _).
  exists project'. split; [exact Hcall|exact Hfiles].
Defined.

(** X17: when no loaded file matches and the project has a [src]
    directory, [getVendureConfig] throws if the directory cannot be
    listed, and also if the listed configuration file cannot be added
    as a source file. *)
Theorem getVendureConfig_fallback_throws :
  ∀ (cwd : jsstring) (fs : FileSystem) (project : Project)
    (checkFileNameOption : option bool) (srcDirPath : jsstring),
    getVendureConfigSourceFile (default true checkFileNameOption)
                               (sourceFiles project) = None →
    getDirectory cwd project "src" = Some srcDirPath →
    (readdirSync fs srcDirPath = None →
     ∃ message,
       getVendureConfig cwd fs project checkFileNameOption = Thrown message)
    ∧ (∀ srcFiles name,
         readdirSync fs srcDirPath = Some srcFiles →
         List.find (fun file => includes file "vendure-config.ts") srcFiles
         = Some name →
         Forall (fun sf => filePath sf ≠ NodePath.join srcDirPath name)
                (sourceFiles project) →
         parsedAt fs (NodePath.join srcDirPath name) = None →
         ∃ message,
           getVendureConfig cwd fs project checkFileNameOption
           = Thrown message).
Proof.
  intros cwd fs project checkFileNameOption srcDirPath Hnone Hdir. split.
  - intros Hls. unfold getVendureConfig. rewrite Hnone.
    unfold findAndAddVendureConfigToProject. rewrite Hdir, Hls. eauto.
  - intros srcFiles name Hls Hname Hfresh Hparsed.
    unfold getVendureConfig. rewrite Hnone.
    unfold findAndAddVendureConfigToProject, addSourceFileAtPath.
    rewrite Hdir, Hls, Hname.
    assert (Hloaded :
      List.find (fun sf => bool_decide (filePath sf = NodePath.join srcDirPath name))
                (sourceFiles project) = None).
    { apply find_none_iff. eapply Forall_impl; [exact Hfresh|].
      intros sf Hsf. by apply bool_decide_eq_false. }
    rewrite Hloaded, Hparsed. eauto.
Qed.

Lemma getVendureConfig_fallback_throws_witness :
  ∃ message,
    getVendureConfig (js "/project") noDisk
      (mkProject [pluginFile] [js "/project/src"] pathOrder) None
    = Thrown message.
Proof.
  exact (proj1 (getVendureConfig_fallback_throws (js "/project") noDisk
                  (mkProject [pluginFile] [js "/project/src"] pathOrder) None
                  (js "/project/src") eq_refl eq_refl) eq_refl).
Defined.

Lemma hasPluginDecorator_iff (c : ClassDeclaration) :
  hasPluginDecorator c = true
  ↔ DecoratorModifier (js "VendurePlugin") ∈ classModifiers c.
Proof.
  unfold hasPluginDecorator.
  destruct (List.find _ _) as [m|] eqn:Hf; simpl.
  - split; [intros _|done]. apply find_some in Hf as [Hin Hm].
    destruct m as [name|]; [|done]. apply bool_decide_eq_true in Hm.
    subst. by apply list_elem_of_In.
  - split; [done|]. intros Hin. apply find_none_iff in Hf.
    rewrite Forall_forall in Hf. specialize (Hf _ Hin).
    unfold isVendurePluginDecorator in Hf.
    by rewrite bool_decide_eq_true_2 in Hf.
Qed.

(** X18: [getPluginClasses] returns, in file order and then in the
    order of each file, exactly the classes with a decorator named
    [VendurePlugin] among their modifiers: the result for a project is
    the results for its parts put end to end. *)
Theorem getPluginClasses_exactly_the_decorated :
  ∀ (before after : list (list ClassDeclaration))
    (classes : list ClassDeclaration),
    getPluginClasses (before ++ classes :: after)
    = getPluginClasses before
      ++ List.filter hasPluginDecorator classes
      ++ getPluginClasses after
    ∧ ∀ c, c ∈ getPluginClasses (before ++ classes :: after) ↔
           (∃ cs, cs ∈ before ++ classes :: after ∧ c ∈ cs)
           ∧ DecoratorModifier (js "VendurePlugin") ∈ classModifiers c.
Proof.
  intros before after classes. unfold getPluginClasses. split.
  - rewrite flat_map_app. simpl. by rewrite !List.filter_app.
  - intros c. rewrite list_elem_of_In, filter_In, in_flat_map.
    rewrite hasPluginDecorator_iff.
    split; intros [(cs & H1 & H2) H3]; (split; [|done]); exists cs;
      by rewrite ?list_elem_of_In in *.
Qed.

Example getPluginClasses_mixed :
  getPluginClasses [[serviceClass; pluginClass]; []; [pluginClass]]
  = [pluginClass; pluginClass]
  ∧ getPluginClasses [[]; [serviceClass]] = [].
Proof. vm_compute. done. Qed.

(** ** The project loader: the merge of the options is shallow *)

(** X19: with [tsconfig.json] in place, [getTsMorphProject] tests for
    the file, then builds the project.  Every key the caller passes
    replaces the loader's value as a whole, also when the value passed
    is [undefined]: a caller's [compilerOptions] is used as given,
    without the loader's [skipLibCheck], and a [tsConfigFilePath] passed
    as [undefined] leaves the project without the path that was tested.
    A key the caller does not pass has the loader's value. *)
Theorem getTsMorphProject_caller_options_win :
  ∀ (ManipulationSettings : Type) (defaults : ManipulationSettings)
    (cwd : jsstring) (fs : FileSystem)
    (options : ProjectOptions ManipulationSettings),
    existsSync fs (NodePath.join cwd "tsconfig.json") = true →
    ∃ built,
      getTsMorphProject ManipulationSettings defaults cwd fs options
      = (Returned built,
         [EvExistsSync (NodePath.join cwd "tsconfig.json");
          EvNewProject (key_value (tsConfigFilePath _ built))])
      ∧ (∀ value, tsConfigFilePath _ options = Given value →
                  tsConfigFilePath _ built = Given value)
      ∧ (∀ value, manipulationSettings _ options = Given value →
                  manipulationSettings _ built = Given value)
      ∧ (∀ value, compilerOptions _ options = Given value →
                  compilerOptions _ built = Given value)
      ∧ (tsConfigFilePath _ options = Absent →
         tsConfigFilePath _ built
         = Given (Some (NodePath.join cwd "tsconfig.json")))
      ∧ (manipulationSettings _ options = Absent →
         manipulationSettings _ built = Given (Some defaults))
      ∧ (compilerOptions _ options = Absent →
         compilerOptions _ built = Given (Some (mkCompilerOptions (Some true))))
      ∧ skipAddingFilesFromTsConfig _ built
        = skipAddingFilesFromTsConfig _ options.
Proof.
  intros MS defaults cwd fs options Hexists.
  unfold getTsMorphProject. rewrite Hexists. cbn [negb].
  eexists. split; [reflexivity|]. unfold spread. simpl.
  repeat split; try (by intros value ->); try (by intros ->).
  by destruct (skipAddingFilesFromTsConfig _ options).
Qed.

Lemma getTsMorphProject_caller_options_win_witness :
  ∃ built,
    (getTsMorphProject unit tt (js "/home/dev/shop") tsconfigDisk
       (mkProjectOptions unit Absent Absent (Given None) Absent)).1
    = Returned built
    ∧ compilerOptions _ built = Given None
    ∧ tsConfigFilePath _ built
      = Given (Some (js "/home/dev/shop/tsconfig.json")).
Proof.
  destruct (getTsMorphProject_caller_options_win unit tt (js "/home/dev/shop")
              tsconfigDisk
              (mkProjectOptions unit Absent Absent (Given None) Absent)
              eq_refl)
    as (built & Hcall & _ & _ & Hco & Hpath & _).
  exists built. rewrite Hcall. split; [reflexivity|].
  split; [by apply Hco|by apply Hpath].
Defined.

(** ** The template instantiator: calls compose *)

Lemma createFile_returned (fs : FileSystem) (project : gmap jsstring jsstring)
    (templatePath content : jsstring) :
  readFileSync fs templatePath = Some content →
  createFile fs project templatePath
  = (Returned (<[NodePath.join tempPrefix templatePath := content]> project,
               mkVirtualFile (NodePath.join tempPrefix templatePath) content),
     [EvReadFileSync templatePath;
      EvCreateSourceFile (NodePath.join tempPrefix templatePath)]).
Proof.
  intros Hr. unfold createFile, createSourceFile. rewrite Hr.
  by destruct (project !! NodePath.join tempPrefix templatePath).
Qed.

(** X20: [createFile] for two templates with different target paths
    gives the same project in either order, holding both texts. *)
Theorem createFile_templates_commute :
  ∀ (fs : FileSystem) (project : gmap jsstring jsstring)
    (template1 template2 content1 content2 : jsstring),
    readFileSync fs template1 = Some content1 →
    readFileSync fs template2 = Some content2 →
    NodePath.join tempPrefix template1 ≠ NodePath.join tempPrefix template2 →
    ∃ p1 f1 p2 f2 p12 p21,
      (createFile fs project template1).1 = Returned (p1, f1)
      ∧ (createFile fs project template2).1 = Returned (p2, f2)
      ∧ (createFile fs p1 template2).1 = Returned (p12, f2)
      ∧ (createFile fs p2 template1).1 = Returned (p21, f1)
      ∧ p12 = p21
      ∧ p12 !! virtualPath f1 = Some content1
      ∧ p12 !! virtualPath f2 = Some content2.
Proof.
  intros fs project t1 t2 c1 c2 H1 H2 Hne.
  do 6 eexists.
  rewrite !(createFile_returned fs _ t1 c1 H1).
  rewrite !(createFile_returned fs _ t2 c2 H2). simpl.
  split; [done|]. split; [done|]. split; [done|]. split; [done|].
  split; [by apply insert_insert_ne|].
  split; [by rewrite lookup_insert_ne, lookup_insert_eq|
          by rewrite lookup_insert_eq].
Qed.

Lemma createFile_templates_commute_witness :
  ∃ p1 f1 p2 f2 p12 p21,
    (createFile twoTemplatesDisk ∅ (js "templates/plugin.ts.template")).1
    = Returned (p1, f1)
    ∧ (createFile twoTemplatesDisk ∅ (js "templates/service.ts.template")).1
      = Returned (p2, f2)
    ∧ (createFile twoTemplatesDisk p1 (js "templates/service.ts.template")).1
      = Returned (p12, f2)
    ∧ (createFile twoTemplatesDisk p2 (js "templates/plugin.ts.template")).1
      = Returned (p21, f1)
    ∧ p12 = p21.
Proof.
  destruct (createFile_templates_commute twoTemplatesDisk ∅
              (js "templates/plugin.ts.template")
              (js "templates/service.ts.template")
              (js "export class Foo {}") (js "export class Bar {}")
              eq_refl eq_refl ltac:(vm_compute; congruence))
    as (p1 & f1 & p2 & f2 & p12 & p21 & H1 & H2 & H3 & H4 & H5 & _).
  by exists p1, f1, p2, f2, p12, p21.
Defined.

(** X21: [createFile] for the same template, unchanged on disk, a
    second time returns the same file and leaves the project as the
    first call left it; the project has gained the one path. *)
Theorem createFile_same_template_twice :
  ∀ (fs : FileSystem) (project : gmap jsstring jsstring)
    (templatePath content : jsstring),
    readFileSync fs templatePath = Some content →
    ∃ project' file,
      (createFile fs project templatePath).1 = Returned (project', file)
      ∧ (createFile fs project' templatePath).1 = Returned (project', file)
      ∧ dom project' = {[virtualPath file]} ∪ dom project.
Proof.
  intros fs project templatePath content Hread.
  do 2 eexists. rewrite !(createFile_returned fs _ _ content Hread). simpl.
  split; [done|]. split; [by rewrite insert_insert_eq|].
  by rewrite dom_insert_L.
Qed.

Lemma createFile_same_template_twice_witness :
  ∃ project' file,
    (createFile (templateDisk (js "export class Foo {}")) ∅
                (js "templates/plugin.ts.template")).1
    = Returned (project', file)
    ∧ (createFile (templateDisk (js "export class Foo {}")) project'
                  (js "templates/plugin.ts.template")).1
      = Returned (project', file).
Proof.
  destruct (createFile_same_template_twice
              (templateDisk (js "export class Foo {}")) ∅
              (js "templates/plugin.ts.template") (js "export class Foo {}")
              eq_refl)
    as (project' & file & H1 & H2 & _).
  by exists project', file.
Defined.

(** ** The date pipe: locale and format fall-backs *)

Lemma replace_underscores_spec (s : jsstring) :
  ("_"%char ∉ replace_underscores s)
  ∧ length (replace_underscores s) = length s
  ∧ ∀ i c, s !! i = Some c → c ≠ "_"%char →
           replace_underscores s !! i = Some c.
Proof.
  unfold replace_underscores. split; [|split].
  - intros (c & Hc & _)%list_elem_of_fmap.
    destruct (Ascii.eqb c "_") eqn:E; [done|].
    apply Ascii.eqb_neq in E. congruence.
  - apply length_fmap.
  - intros i c Hi Hc. rewrite list_lookup_fmap, Hi. simpl.
    by rewrite (proj2 (Ascii.eqb_neq _ _) Hc).
Qed.

(** X22: a pipe built with both collaborators formats with the language
    code delivered last, its underscores turned into hyphens, when no
    locale is passed. *)
Theorem transform_uses_latest_language :
  ∀ (earlier : list jsstring) (languageCode : jsstring) (date : JsDate)
    (format : JsValue),
    languageCode ≠ [] →
    let pipe :=
      onLanguage (foldl onLanguage (construct true true) earlier) languageCode in
    transform pipe (JsDateObject date) [format]
    = IntlFormatted (replace_underscores languageCode)
                    (getOptionsForFormat
                       (match format with
                        | JsString f => f
                        | _ => js "medium"
                        end))
                    date
    ∧ ("_"%char ∉ replace_underscores languageCode)
    ∧ length (replace_underscores languageCode) = length languageCode.
Proof.
  intros earlier languageCode date format Hne pipe.
  assert (Hsub : subscribed (foldl onLanguage (construct true true) earlier) = true).
  { assert (Hgen : ∀ p, subscribed p = true →
              subscribed (foldl onLanguage p earlier) = true).
    { induction earlier as [|code earlier IH]; intros p Hp; [done|].
      simpl. apply IH. unfold onLanguage. by rewrite Hp. }
    by apply Hgen. }
  assert (Hloc : locale pipe = Some (replace_underscores languageCode)).
  { subst pipe. unfold onLanguage at 1. by rewrite Hsub. }
  destruct (replace_underscores_spec languageCode) as (Hno & Hlen & _).
  split; [|done].
  unfold transform. rewrite Hloc. simpl.
  destruct (replace_underscores languageCode) as [|c l] eqn:Hr.
  - destruct languageCode; [done|]. simpl in Hlen. lia.
  - by destruct format.
Qed.

Lemma transform_uses_latest_language_witness :
  transform
    (onLanguage (foldl onLanguage (construct true true) [js "en"]) (js "zh_Hant"))
    (JsDateObject (DateOfTime 0)) [JsString (js "short")]
  = IntlFormatted (js "zh-Hant") (getOptionsForFormat (js "short"))
                  (DateOfTime 0).
Proof.
  exact (proj1 (transform_uses_latest_language [js "en"] (js "zh_Hant")
                  (DateOfTime 0) (JsString (js "short")) ltac:(done))).
Defined.

(** X23: a string passed as locale is the active locale whatever the
    pipe holds, the empty string included. *)
Theorem transform_override_wins :
  ∀ (this other : Pipe) (value format : JsValue) (override : jsstring),
    transform this value [format; JsString override]
    = transform other value [format; JsString override]
    ∧ (∀ date, date_of value = Some date →
               transform this value [format; JsString override]
               = IntlFormatted override
                               (getOptionsForFormat (format_name format)) date).
Proof.
  intros this other value format override. split.
  - unfold transform. simpl. rewrite !orb_true_r. done.
  - intros date Hdate. unfold transform, format_name. simpl.
    rewrite orb_true_r. unfold date_of in Hdate.
    destruct value; simplify_eq; done.
Qed.

Lemma transform_override_wins_witness :
  transform (onLanguage (construct true true) (js "en"))
            (JsString (js "2024-03-01")) [JsUndefined; JsString (js "")]
  = IntlFormatted (js "") (getOptionsForFormat (js "medium"))
                  (DateOfString (js "2024-03-01")).
Proof.
  exact (proj2 (transform_override_wins
                  (onLanguage (construct true true) (js "en"))
                  (construct false false) (JsString (js "2024-03-01"))
                  JsUndefined (js ""))
           (DateOfString (js "2024-03-01")) eq_refl).
Defined.

(** X24: a pipe built without one of its collaborators never holds a
    locale, so it returns [undefined] unless a string is passed as
    locale. *)
Theorem transform_without_subscription :
  ∀ (dataService changeDetectorRef : bool) (deliveries : list jsstring)
    (value : JsValue) (args : list JsValue),
    dataService && changeDetectorRef = false →
    let pipe := foldl onLanguage (construct dataService changeDetectorRef)
                      deliveries in
    locale pipe = None
    ∧ (is_string (arg args 1) = false → transform pipe value args = Undefined).
Proof.
  intros ds cdr deliveries value args Hmissing pipe.
  assert (Hpipe : pipe = mkPipe false None).
  { subst pipe. unfold construct. rewrite Hmissing.
    induction deliveries as [|code deliveries IH]; [done|]. exact IH. }
  rewrite Hpipe. split; [done|].
  intros Hs. unfold transform. by rewrite Hs.
Qed.

Lemma transform_without_subscription_witness :
  transform (foldl onLanguage (construct true false) [js "de"])
            (JsDateObject (DateOfTime 0)) [JsString (js "short")]
  = Undefined.
Proof.
  exact (proj2 (transform_without_subscription true false [js "de"]
                  (JsDateObject (DateOfTime 0)) [JsString (js "short")]
                  eq_refl) eq_refl).
Defined.

(** X25: after [ngOnDestroy] later language codes change nothing: the
    pipe keeps the locale it had and transforms as before. *)
Theorem ngOnDestroy_keeps_last_locale :
  ∀ (p : Pipe) (later : list jsstring) (value : JsValue)
    (args : list JsValue),
    let destroyed := foldl onLanguage (ngOnDestroy p) later in
    locale destroyed = locale p
    ∧ subscribed destroyed = false
    ∧ transform destroyed value args = transform p value args.
Proof.
  intros p later value args destroyed.
  assert (Hd : destroyed = mkPipe false (locale p)).
  { subst destroyed. unfold ngOnDestroy.
    assert (Hgen : ∀ l, foldl onLanguage (mkPipe false l) later = mkPipe false l).
    { intros l. induction later as [|code later IH]; [done|]. exact IH. }
    destruct p as [[] l]; simpl; apply Hgen. }
  rewrite Hd. by destruct p.
Qed.
